(** * PLANO ELITE: the live voice tutor, the key resolver and the model-calling
    actions, embedded from the TypeScript sources.

    Components embedded here:
    - [lib/gemini]: [getGeminiKey];
    - [LiveChat]: [encode], [decode], [decodeAudioData], [createBlob], the
      channel callbacks [onopen] and [onmessage], [stopSession],
      [translateMessage], and [startSession] up to its first [await];
    - [CultureHub]: [playExpression] and [fetchCultureData] up to the request;
    - [VisualScan]: [scanImage] and [translateResult] up to the request.

    Conventions.
    - A JavaScript string is a [string]: base64 text and the "binary strings"
      handed to [btoa]/[atob] only hold code units below 256, which is what
      an [ascii] is; API keys are ASCII, so [String.length] is [.length].
      The text of a message is kept as its bytes: the code only looks at
      whether it is empty.
    - A [Uint8Array] is a [list byte].
    - [null]/[undefined] is [None]; a value used as a condition goes through
      its JavaScript truthiness ([truthy_string]: the empty string is false).
    - A function that performs effects returns the new component state and
      the list of effects it issued, in order.
    - An [async] function is cut at its [await]: the part up to the request
      and the continuation that runs on the response are two functions.
    - A handler reads the [useState] cells as they are when its event is
      handled: React commits the updates of one event before the next event
      reaches a handler.  The exception is a handler kept from an earlier
      render: the channel callbacks hold the [stopSession] of the render the
      session was started from, and it reads the transcript and the language
      of that render ([stopSession_closure]). *)

From Stdlib Require Import List String Ascii Bool Arith NArith ZArith Lia.
From Stdlib Require Import QArith Qminmax Lqa.
From Stdlib Require Init.Byte.
Import ListNotations.

Local Open Scope string_scope.
Local Open Scope list_scope.

(** ** JavaScript values *)

Definition truthy_string (s : string) : bool :=
  match s with
  | EmptyString => false
  | String _ _ => true
  end.

(** Truthiness of a string that may be [null] or [undefined]. *)
Definition truthy_opt (v : option string) : bool :=
  match v with
  | Some t => truthy_string t
  | None => false
  end.

(** [v || ''] for an optional string. *)
Definition or_empty (v : option string) : string :=
  match v with
  | Some t => if truthy_string t then t else ""
  | None => ""
  end.

(** The [Language] union of [types.ts], by the keys of [GREETINGS]. *)
Inductive Language :=
  Ingles | Espanhol | Frances | Alemao | PortuguesBrasil | Japones | Italiano | Chines.

(** [v && v.length > n] for a string-or-null [v]. *)
Definition longer_than (n : nat) (v : option string) : bool :=
  match v with
  | None => false
  | Some s => truthy_string s && (n <? String.length s)%nat
  end.

(** The text shown when no key is configured (the same literal in
    [fetchCultureData], [scanImage] and [startSession]). *)
Definition KEY_MISSING_MESSAGE : string :=
  "API Key não configurada. Clique no título do app (5 vezes) para configurar sua chave e tente novamente.".

(** ** lib/gemini: [getGeminiKey] *)

Module Gemini.

(** What the three lookups of [getGeminiKey] read. *)
Record KeyEnv := {
  localStorage_gemini_api_key : option string; (* localStorage.getItem('gemini_api_key') *)
  VITE_API_KEY : option string;                (* import.meta.env.VITE_API_KEY *)
  process_env_API_KEY : option string          (* (process.env as any).API_KEY *)
}.

Definition getGeminiKey (e : KeyEnv) : option string :=
  let localKey := localStorage_gemini_api_key e in
  if longer_than 10 localKey then localKey else
  let viteKey := VITE_API_KEY e in
  if longer_than 10 viteKey then viteKey else
  let processKey := process_env_API_KEY e in
  if longer_than 10 processKey then processKey else
  None.

(** The candidates in the order of the specification: persisted per-browser
    setting, build-time value, legacy runtime value. *)
Definition candidates (e : KeyEnv) : list (option string) :=
  [localStorage_gemini_api_key e; VITE_API_KEY e; process_env_API_KEY e].

(** Specification side of the priority rule: the first candidate of a list
    that is available, [None] when there is none. *)
Fixpoint first_available (usable : option string -> bool)
    (cs : list (option string)) : option string :=
  match cs with
  | [] => None
  | c :: cs' => if usable c then c else first_available usable cs'
  end.

(** Specification side: a candidate is available when it is set and longer
    than ten characters. *)
Definition available (v : option string) : bool :=
  match v with
  | Some s => (10 <? String.length s)%nat
  | None => false
  end.

(** A candidate that is set but has at most ten characters. *)
Definition too_short (v : option string) : bool :=
  match v with
  | None => false
  | Some s => (String.length s <=? 10)%nat
  end.

(** The same environment with every too-short candidate removed. *)
Definition drop_short (v : option string) : option string :=
  if too_short v then None else v.

Definition without_short (e : KeyEnv) : KeyEnv :=
  {| localStorage_gemini_api_key := drop_short (localStorage_gemini_api_key e);
     VITE_API_KEY := drop_short (VITE_API_KEY e);
     process_env_API_KEY := drop_short (process_env_API_KEY e) |}.

(** Two environments used as examples: nothing configured, and a key in
    localStorage only. *)
Definition no_key : KeyEnv := Build_KeyEnv None None None.

Definition stored_key : KeyEnv :=
  Build_KeyEnv (Some "AIzaSyExample-0123456789") None None.

End Gemini.

(** ** The platform's [btoa] and [atob]

    Both are browser built-ins, not code of the repository.  [btoa] is the
    base64 encoding of RFC 4648 with padding; [atob] is the "forgiving-base64
    decode" of the WHATWG Infra standard: ASCII whitespace is dropped, up to
    two trailing [=] are dropped when the length is a multiple of four, a
    length of 1 modulo 4 or a character outside the alphabet is an error
    (the [InvalidCharacterError] exception, here [None]). *)

Module Base64.

Definition alphabet : string :=
  "ABCDEFGHIJKLMNOPQRSTUVWXYZabcdefghijklmnopqrstuvwxyz0123456789+/".

Definition pad_char : ascii := "="%char.

(** The character of a 6-bit value. *)
Definition char_of_sextet (n : N) : ascii :=
  match String.get (N.to_nat n) alphabet with
  | Some c => c
  | None => pad_char
  end.

Fixpoint index_from (i : N) (c : ascii) (s : string) : option N :=
  match s with
  | EmptyString => None
  | String d s' => if Ascii.eqb c d then Some i else index_from (N.succ i) c s'
  end.

(** The 6-bit value of a character of the alphabet. *)
Definition sextet_of_char (c : ascii) : option N := index_from 0 c alphabet.

(** Three octets make four sextets; one or two trailing octets make two or
    three sextets, the missing low bits being zero. *)
Fixpoint sextets_of_octets (l : list N) : list N :=
  match l with
  | a :: b :: c :: r =>
      (a / 4) :: ((a mod 4) * 16 + b / 16) :: ((b mod 16) * 4 + c / 64)
        :: (c mod 64) :: sextets_of_octets r
  | [a; b] => [a / 4; (a mod 4) * 16 + b / 16; (b mod 16) * 4]
  | [a] => [a / 4; (a mod 4) * 16]
  | [] => []
  end%N.

Definition padding (len : nat) : list ascii :=
  match (len mod 3)%nat with
  | 1%nat => [pad_char; pad_char]
  | 2%nat => [pad_char]
  | _ => []
  end.

Definition btoa (binary : string) : string :=
  let octets := map N_of_ascii (list_ascii_of_string binary) in
  string_of_list_ascii
    (map char_of_sextet (sextets_of_octets octets) ++ padding (List.length octets)).

Definition is_ascii_whitespace (c : ascii) : bool :=
  let n := N_of_ascii c in
  ((n =? 9) || (n =? 10) || (n =? 12) || (n =? 13) || (n =? 32))%N.

(** "If data's length divides by 4 leaving no remainder, then: if data ends
    with one or two U+003D (=) code points, then remove them from data." *)
Definition strip_padding (data : list ascii) : list ascii :=
  if (List.length data mod 4 =? 0)%nat then
    match rev data with
    | c1 :: c2 :: r =>
        if Ascii.eqb c1 pad_char
        then if Ascii.eqb c2 pad_char then rev r else rev (c2 :: r)
        else data
    | _ => data
    end
  else data.

Fixpoint sextets_of_chars (data : list ascii) : option (list N) :=
  match data with
  | [] => Some []
  | c :: data' =>
      match sextet_of_char c, sextets_of_chars data' with
      | Some n, Some ns => Some (n :: ns)
      | _, _ => None
      end
  end.

(** Four sextets make three octets; a tail of two or three sextets makes one
    or two octets, the left-over low bits being discarded. *)
Fixpoint octets_of_sextets (l : list N) : list N :=
  match l with
  | a :: b :: c :: d :: r =>
      (a * 4 + b / 16) :: ((b mod 16) * 16 + c / 4) :: ((c mod 4) * 64 + d)
        :: octets_of_sextets r
  | [a; b; c] => [a * 4 + b / 16; (b mod 16) * 16 + c / 4]
  | [a; b] => [a * 4 + b / 16]
  | _ => []
  end%N.

Definition atob (base64 : string) : option string :=
  let data := filter (fun c => negb (is_ascii_whitespace c))
                     (list_ascii_of_string base64) in
  let data := strip_padding data in
  if (List.length data mod 4 =? 1)%nat then None
  else
    match sextets_of_chars data with
    | None => None
    | Some sextets =>
        Some (string_of_list_ascii (map ascii_of_N (octets_of_sextets sextets)))
    end.

(** The ranges of the two kinds of digits. *)
Definition octet (n : N) : Prop := (n < 256)%N.
Definition sextet (n : N) : Prop := (n < 64)%N.

Definition option_N_eqb (a : option N) (b : N) : bool :=
  match a with Some x => N.eqb x b | None => false end.

End Base64.

(** ** Typed arrays *)

(** [arr[i] = v] on a typed array: a write past the end is ignored. *)
Fixpoint set_index {A} (i : nat) (v : A) (arr : list A) : list A :=
  match arr, i with
  | [], _ => []
  | _ :: r, O => v :: r
  | x :: r, S i' => x :: set_index i' v r
  end.

(** [for (let i = 0; i < n; i++) body(i)] over a state [acc]. *)
Definition for_range {S} (n : nat) (body : nat -> S -> S) (acc : S) : S :=
  fold_left (fun acc i => body i acc) (seq 0 n) acc.

(** [s.charCodeAt(i)] stored into a [Uint8Array] slot: the code unit, and 0
    for the [NaN] of an index past the end. *)
Definition charCodeAt_u8 (s : string) (i : nat) : Byte.byte :=
  match String.get i s with
  | Some c => byte_of_ascii c
  | None => Byte.x00
  end.

(** ** LiveChat: the live voice tutor screen *)

Module LiveChat.

Import Gemini.

Inductive Role := user | tutor.

Record Message := mkMessage {
  role : Role;
  text : string;
  translation : option string
}.

Record ChatSessionLog := mkChatSessionLog {
  id : string;
  date : Z;
  messages : list Message;
  language : Language
}.

Definition GREETINGS (l : Language) : string :=
  match l with
  | Ingles => "Hello! I'm your English practice partner. How are you today?"
  | Espanhol => "¡Hola! Soy tu compañero de prática de español. ¿Cómo estás hoy?"
  | Frances => "Bonjour ! Je suis ton partenaire de prática du français. Comment vas-tu?"
  | Alemao => "Hallo! Ich bin dein Deutsch-Übungspartner. Wie geht es dir heute?"
  | PortuguesBrasil => "Olá! Tudo bem? Sou seu parceiro de conversação em Português."
  | Japones => "こんにちは！私はあなたの日本語練習パートナーです。今日の調子ですか？"
  | Italiano => "Ciao! Sono il tuo compagno di pratica di italiano. Come stai oggi?"
  | Chines => "你好！我是你的中文练习伙伴。你今天怎么样？"
  end.

(** *** Web Audio objects

    A time is a number of seconds, a rational.  An [AudioContext] is seen
    through the two attributes the code reads. *)

Inductive AudioContextState := suspended | running | closed.

Record AudioContext := mkAudioContext {
  state : AudioContextState;
  currentTime : Q
}.

Definition is_closed (c : AudioContext) : bool :=
  match state c with closed => true | _ => false end.

Record AudioBuffer := mkAudioBuffer {
  sampleRate : positive;
  channelData : list (list Q);   (* one list of samples per channel *)
  frames : nat                   (* AudioBuffer.length *)
}.

(** [AudioBuffer.duration]: length / sampleRate. *)
Definition duration (b : AudioBuffer) : Q := Z.of_nat (frames b) # sampleRate b.

(** Nodes, sessions and analysers are objects: only their identity matters. *)
Definition AudioBufferSourceNode := nat.
Definition Session := nat.
Definition AnalyserNode := nat.

Inductive Side := Input | Output.

(** What a request to the model carries. *)
Inductive Prompt :=
| Translate (target : Language) (message_text : string).

Inductive Effect :=
| SourceStart (source : AudioBufferSourceNode) (when : Q) (buffer : AudioBuffer)
| SourceStop (source : AudioBufferSourceNode)
| SessionClose (session : Session)
| ContextClose (side : Side)
| ContextResume (side : Side)
| CancelAnimationFrame (handle : Z)
| OnAction
| Alert (message : string)
| GetUserMedia
| GenerateContent (apiKey : string) (model : string) (contents : Prompt).

(** *** [encode] and [decode] *)

Definition fromCharCode (b : Byte.byte) : string :=
  String (ascii_of_byte b) EmptyString.

Definition encode (bytes : list Byte.byte) : string :=
  let binary := fold_left (fun binary b => (binary ++ fromCharCode b)%string) bytes "" in
  Base64.btoa binary.

(** [None] is the exception of [atob]. *)
Definition decode (base64 : string) : option (list Byte.byte) :=
  match Base64.atob base64 with
  | None => None
  | Some binaryString =>
      let bytes := repeat Byte.x00 (String.length binaryString) in
      Some (for_range (String.length binaryString)
              (fun i bytes => set_index i (charCodeAt_u8 binaryString i) bytes)
              bytes)
  end.

(** *** [decodeAudioData] *)

(** A signed 16-bit integer from its two bytes, low byte first. *)
Definition int16_of_bytes (lo hi : Byte.byte) : Z :=
  let u := (Z.of_N (Byte.to_N lo) + 256 * Z.of_N (Byte.to_N hi))%Z in
  if (u <? 32768)%Z then u else (u - 65536)%Z.

(** [new Int16Array(data.buffer)]: a [RangeError] ([None]) when the byte
    length is odd. *)
Fixpoint Int16Array_of_buffer (data : list Byte.byte) : option (list Z) :=
  match data with
  | [] => Some []
  | [_] => None
  | lo :: hi :: r =>
      match Int16Array_of_buffer r with
      | Some l => Some (int16_of_bytes lo hi :: l)
      | None => None
      end
  end.

(** [ctx.createBuffer(numChannels, frameCount, sampleRate)] raises
    [NotSupportedError] for zero channels or zero frames.  The two loops of
    [decodeAudioData] then write every slot [channel], [i] once. *)
Definition decodeAudioData (data : list Byte.byte) (rate : positive)
    (numChannels : nat) : option AudioBuffer :=
  match Int16Array_of_buffer data with
  | None => None
  | Some dataInt16 =>
      let frameCount := (List.length dataInt16 / numChannels)%nat in
      if ((numChannels =? 0) || (frameCount =? 0))%nat then None
      else
        Some (mkAudioBuffer rate
                (map (fun channel =>
                        map (fun i =>
                               nth (i * numChannels + channel) dataInt16 0%Z # 32768)
                            (seq 0 frameCount))
                     (seq 0 numChannels))
                frameCount)
  end.

(** *** [createBlob] *)

(** Storing a number into an [Int16Array] slot (ECMAScript [ToInt16]):
    truncate towards zero, reduce modulo 2^16, read as two's complement. *)
Definition ToInt16 (x : Q) : Z :=
  let int := Z.quot (Qnum x) (Zpos (Qden x)) in
  let int16bit := (int mod 65536)%Z in
  if (int16bit >=? 32768)%Z then (int16bit - 65536)%Z else int16bit.

Definition byte_of_Z (z : Z) : Byte.byte :=
  byte_of_ascii (ascii_of_N (Z.to_N (z mod 256))).

(** [new Uint8Array(int16.buffer)]: two bytes per element, low byte first. *)
Definition Uint8Array_of_Int16Array (int16 : list Z) : list Byte.byte :=
  flat_map (fun v => [byte_of_Z v; byte_of_Z (v / 256)]) int16.

Record Blob := mkBlob {
  data : string;
  mimeType : string
}.

(** A capture block is a list of finite float32 samples, each a rational;
    the product with 32768 is exact. *)
Definition createBlob (samples : list Q) : Blob :=
  let int16 :=
    for_range (List.length samples)
      (fun i int16 => set_index i (ToInt16 (nth i samples 0 * 32768)) int16)
      (repeat 0%Z (List.length samples)) in
  mkBlob (encode (Uint8Array_of_Int16Array int16)) "audio/pcm;rate=16000".

(** *** Component state: the [useState] cells, then the [useRef] cells *)

Record State := mkState {
  isActive : bool;
  isConnecting : bool;
  transcription : list Message;
  pastSessions : list ChatSessionLog;
  audioLevel : Q;
  targetTransLang : Language;
  isTranslatingIdx : option nat;
  currentInputRef : string;
  currentOutputRef : string;
  sessionPromiseRef : option Session;
  audioContextInRef : option AudioContext;
  audioContextOutRef : option AudioContext;
  nextStartTimeRef : Q;
  sourcesRef : list AudioBufferSourceNode;  (* a Set, in insertion order *)
  analyzerRef : option AnalyserNode;
  animationFrameRef : option Z
}.

Definition set_isActive (v : bool) (s : State) : State :=
  mkState v (isConnecting s) (transcription s) (pastSessions s)
    (audioLevel s) (targetTransLang s) (isTranslatingIdx s)
    (currentInputRef s) (currentOutputRef s) (sessionPromiseRef s)
    (audioContextInRef s) (audioContextOutRef s) (nextStartTimeRef s)
    (sourcesRef s) (analyzerRef s) (animationFrameRef s).

Definition set_isConnecting (v : bool) (s : State) : State :=
  mkState (isActive s) v (transcription s) (pastSessions s) (audioLevel s)
    (targetTransLang s) (isTranslatingIdx s) (currentInputRef s)
    (currentOutputRef s) (sessionPromiseRef s) (audioContextInRef s)
    (audioContextOutRef s) (nextStartTimeRef s) (sourcesRef s)
    (analyzerRef s) (animationFrameRef s).

Definition set_transcription (v : list Message) (s : State) : State :=
  mkState (isActive s) (isConnecting s) v (pastSessions s) (audioLevel s)
    (targetTransLang s) (isTranslatingIdx s) (currentInputRef s)
    (currentOutputRef s) (sessionPromiseRef s) (audioContextInRef s)
    (audioContextOutRef s) (nextStartTimeRef s) (sourcesRef s)
    (analyzerRef s) (animationFrameRef s).

Definition set_pastSessions (v : list ChatSessionLog) (s : State) : State :=
  mkState (isActive s) (isConnecting s) (transcription s) v (audioLevel s)
    (targetTransLang s) (isTranslatingIdx s) (currentInputRef s)
    (currentOutputRef s) (sessionPromiseRef s) (audioContextInRef s)
    (audioContextOutRef s) (nextStartTimeRef s) (sourcesRef s)
    (analyzerRef s) (animationFrameRef s).

Definition set_audioLevel (v : Q) (s : State) : State :=
  mkState (isActive s) (isConnecting s) (transcription s) (pastSessions s) v
    (targetTransLang s) (isTranslatingIdx s) (currentInputRef s)
    (currentOutputRef s) (sessionPromiseRef s) (audioContextInRef s)
    (audioContextOutRef s) (nextStartTimeRef s) (sourcesRef s)
    (analyzerRef s) (animationFrameRef s).

Definition set_isTranslatingIdx (v : option nat) (s : State) : State :=
  mkState (isActive s) (isConnecting s) (transcription s) (pastSessions s)
    (audioLevel s) (targetTransLang s) v (currentInputRef s)
    (currentOutputRef s) (sessionPromiseRef s) (audioContextInRef s)
    (audioContextOutRef s) (nextStartTimeRef s) (sourcesRef s)
    (analyzerRef s) (animationFrameRef s).

Definition set_currentInputRef (v : string) (s : State) : State :=
  mkState (isActive s) (isConnecting s) (transcription s) (pastSessions s)
    (audioLevel s) (targetTransLang s) (isTranslatingIdx s) v
    (currentOutputRef s) (sessionPromiseRef s) (audioContextInRef s)
    (audioContextOutRef s) (nextStartTimeRef s) (sourcesRef s)
    (analyzerRef s) (animationFrameRef s).

Definition set_currentOutputRef (v : string) (s : State) : State :=
  mkState (isActive s) (isConnecting s) (transcription s) (pastSessions s)
    (audioLevel s) (targetTransLang s) (isTranslatingIdx s)
    (currentInputRef s) v (sessionPromiseRef s) (audioContextInRef s)
    (audioContextOutRef s) (nextStartTimeRef s) (sourcesRef s)
    (analyzerRef s) (animationFrameRef s).

Definition set_sessionPromiseRef (v : option Session) (s : State) : State :=
  mkState (isActive s) (isConnecting s) (transcription s) (pastSessions s)
    (audioLevel s) (targetTransLang s) (isTranslatingIdx s)
    (currentInputRef s) (currentOutputRef s) v (audioContextInRef s)
    (audioContextOutRef s) (nextStartTimeRef s) (sourcesRef s)
    (analyzerRef s) (animationFrameRef s).

Definition set_audioContextInRef (v : option AudioContext) (s : State) : State :=
  mkState (isActive s) (isConnecting s) (transcription s) (pastSessions s)
    (audioLevel s) (targetTransLang s) (isTranslatingIdx s)
    (currentInputRef s) (currentOutputRef s) (sessionPromiseRef s) v
    (audioContextOutRef s) (nextStartTimeRef s) (sourcesRef s)
    (analyzerRef s) (animationFrameRef s).

Definition set_audioContextOutRef (v : option AudioContext) (s : State) : State :=
  mkState (isActive s) (isConnecting s) (transcription s) (pastSessions s)
    (audioLevel s) (targetTransLang s) (isTranslatingIdx s)
    (currentInputRef s) (currentOutputRef s) (sessionPromiseRef s)
    (audioContextInRef s) v (nextStartTimeRef s) (sourcesRef s)
    (analyzerRef s) (animationFrameRef s).

Definition set_nextStartTimeRef (v : Q) (s : State) : State :=
  mkState (isActive s) (isConnecting s) (transcription s) (pastSessions s)
    (audioLevel s) (targetTransLang s) (isTranslatingIdx s)
    (currentInputRef s) (currentOutputRef s) (sessionPromiseRef s)
    (audioContextInRef s) (audioContextOutRef s) v (sourcesRef s)
    (analyzerRef s) (animationFrameRef s).

Definition set_sourcesRef (v : list AudioBufferSourceNode) (s : State) : State :=
  mkState (isActive s) (isConnecting s) (transcription s) (pastSessions s)
    (audioLevel s) (targetTransLang s) (isTranslatingIdx s)
    (currentInputRef s) (currentOutputRef s) (sessionPromiseRef s)
    (audioContextInRef s) (audioContextOutRef s) (nextStartTimeRef s) v
    (analyzerRef s) (animationFrameRef s).

Definition set_analyzerRef (v : option AnalyserNode) (s : State) : State :=
  mkState (isActive s) (isConnecting s) (transcription s) (pastSessions s)
    (audioLevel s) (targetTransLang s) (isTranslatingIdx s)
    (currentInputRef s) (currentOutputRef s) (sessionPromiseRef s)
    (audioContextInRef s) (audioContextOutRef s) (nextStartTimeRef s)
    (sourcesRef s) v (animationFrameRef s).

Definition set_animationFrameRef (v : option Z) (s : State) : State :=
  mkState (isActive s) (isConnecting s) (transcription s) (pastSessions s)
    (audioLevel s) (targetTransLang s) (isTranslatingIdx s)
    (currentInputRef s) (currentOutputRef s) (sessionPromiseRef s)
    (audioContextInRef s) (audioContextOutRef s) (nextStartTimeRef s)
    (sourcesRef s) (analyzerRef s) v.

(** The initial values of the hooks. *)
Definition initial : State :=
  mkState false false [] [] 0 PortuguesBrasil None "" "" None None None 0 []
    None None.

(** *** The channel's events

    What [onmessage] reads of a message once its first line has produced
    [base64Audio].  A message on which that line itself throws is described
    by [WireMessage] below. *)

Record LiveServerMessage := mkLiveServerMessage {
  inlineData : option string;
    (* message.serverContent?.modelTurn?.parts[0]?.inlineData?.data *)
  inputTranscription : option (option string);
    (* serverContent?.inputTranscription, and its text *)
  outputTranscription : option (option string);
  turnComplete : bool;
  interrupted : bool
}.

(** [Set.prototype.add] and [delete] on a set kept in insertion order. *)
Definition set_add (x : nat) (l : list nat) : list nat :=
  if existsb (Nat.eqb x) l then l else l ++ [x].

Definition set_delete (x : nat) (l : list nat) : list nat :=
  filter (fun y => negb (Nat.eqb x y)) l.

(** An [async] handler either runs to its end or rejects at an exception;
    what it wrote and issued before the exception stays. *)
Inductive Outcome :=
| Completed (s : State) (effects : list Effect)
| Rejected (s : State) (effects : list Effect).

Definition outcome_state (o : Outcome) : State :=
  match o with Completed s _ | Rejected s _ => s end.

Definition outcome_effects (o : Outcome) : list Effect :=
  match o with Completed _ e | Rejected _ e => e end.

(** [onopen]. *)
Definition onopen (lang : Language) (s : State) : State * list Effect :=
  let e1 := match audioContextInRef s with Some _ => [ContextResume Input] | None => [] end in
  let e2 := match audioContextOutRef s with Some _ => [ContextResume Output] | None => [] end in
  let s := set_isActive true s in
  let s := set_isConnecting false s in
  let s := set_transcription [mkMessage tutor (GREETINGS lang) None] s in
  (s, e1 ++ e2).

(** The audio part of [onmessage] (the first [if]).  [audioCtxOut] is the
    output context the handler closed over, as it is when the message
    arrives; [source] is the node [ctx.createBufferSource()] returns. *)
Definition onmessage_audio (audioCtxOut : AudioContext)
    (source : AudioBufferSourceNode) (message : LiveServerMessage)
    (s : State) : Outcome :=
  match inlineData message with
  | Some base64Audio =>
      if truthy_string base64Audio && negb (is_closed audioCtxOut) then
        let s := set_nextStartTimeRef
                   (Qmax (nextStartTimeRef s) (currentTime audioCtxOut)) s in
        match decode base64Audio with
        | None => Rejected s []
        | Some bytes =>
            match decodeAudioData bytes 24000 1 with
            | None => Rejected s []
            | Some audioBuffer =>
                let started := SourceStart source (nextStartTimeRef s) audioBuffer in
                let s := set_nextStartTimeRef
                           (nextStartTimeRef s + duration audioBuffer) s in
                let s := set_sourcesRef (set_add source (sourcesRef s)) s in
                Completed s [started]
            end
        end
      else Completed s []
  | None => Completed s []
  end.

(** The transcript part of [onmessage] (the second, third and fourth [if]). *)
Definition onmessage_transcript (message : LiveServerMessage) (s : State) : State :=
  let s := match inputTranscription message with
           | Some t => set_currentInputRef (currentInputRef s ++ or_empty t)%string s
           | None => s
           end in
  let s := match outputTranscription message with
           | Some t => set_currentOutputRef (currentOutputRef s ++ or_empty t)%string s
           | None => s
           end in
  if turnComplete message then
    let uText := currentInputRef s in
    let tText := currentOutputRef s in
    let s :=
      if truthy_string uText || truthy_string tText then
        set_transcription
          (transcription s
             ++ (if truthy_string uText then [mkMessage user uText None] else [])
             ++ (if truthy_string tText then [mkMessage tutor tText None] else []))
          s
      else s in
    let s := set_currentInputRef "" s in
    set_currentOutputRef "" s
  else s.

(** The interruption part of [onmessage] (the last [if]). *)
Definition onmessage_interrupted (message : LiveServerMessage) (s : State)
    : State * list Effect :=
  if interrupted message then
    let stopped := map SourceStop (sourcesRef s) in
    let s := set_sourcesRef [] s in
    (set_nextStartTimeRef 0 s, stopped)
  else (s, []).

Definition onmessage (audioCtxOut : AudioContext)
    (source : AudioBufferSourceNode) (message : LiveServerMessage)
    (s : State) : Outcome :=
  match onmessage_audio audioCtxOut source message s with
  | Rejected s e => Rejected s e
  | Completed s e1 =>
      let s := onmessage_transcript message s in
      let (s, e2) := onmessage_interrupted message s in
      Completed s (e1 ++ e2)
  end.

(** The [ended] listener of a source. *)
Definition onended (source : AudioBufferSourceNode) (s : State) : State :=
  set_sourcesRef (set_delete source (sourcesRef s)) s.

(** *** [stopSession]

    [stopSession] is a closure of one render: it reads the [transcription]
    and the [language] of that render, whatever the state has become since,
    while the cells ([useRef]) and the functional update of [pastSessions]
    are read as they are when it runs.  [transcription_seen] and [lang] are
    the two values of the render; [newId] and [now] are what
    [Math.random().toString(36).substr(2, 9)] and [new Date()] return.

    [session.close()] runs in the [then] callback of the session promise,
    so after the body of the function: its effect comes last. *)
Definition stopSession_closure (transcription_seen : list Message)
    (lang : Language) (newId : string) (now : Z)
    (s : State) : State * list Effect :=
  let s :=
    if (1 <? List.length transcription_seen)%nat then
      let newSession := mkChatSessionLog newId now transcription_seen lang in
      set_pastSessions (newSession :: pastSessions s) s
    else s in
  let s := set_isActive false s in
  let s := set_isConnecting false s in
  let '(s, e1) :=
    match sessionPromiseRef s with
    | Some session => (set_sessionPromiseRef None s, [SessionClose session])
    | None => (s, [])
    end in
  let '(s, e2) :=
    match audioContextInRef s with
    | Some ctx =>
        (set_audioContextInRef None s,
         if is_closed ctx then [] else [ContextClose Input])
    | None => (s, [])
    end in
  let '(s, e3) :=
    match audioContextOutRef s with
    | Some ctx =>
        (set_audioContextOutRef None s,
         if is_closed ctx then [] else [ContextClose Output])
    | None => (s, [])
    end in
  let e4 := map SourceStop (sourcesRef s) in
  let s := set_sourcesRef [] s in
  let '(s, e5) :=
    match animationFrameRef s with
    | Some handle =>
        if (handle =? 0)%Z then (s, [])
        else (set_animationFrameRef None s, [CancelAnimationFrame handle])
    | None => (s, [])
    end in
  let s := set_analyzerRef None s in
  let s := set_audioLevel 0 s in
  (s, e2 ++ e3 ++ e4 ++ e5 ++ e1).

(** The [stopSession] of the latest render, the one the stop button holds:
    it sees the transcript as it is. *)
Definition stopSession (lang : Language) (newId : string) (now : Z)
    (s : State) : State * list Effect :=
  stopSession_closure (transcription s) lang newId now s.

(** The two buttons, as the component renders them.  The start button is
    shown when [currentDisplayMessages.length === 0 && !isActive &&
    !isConnecting && viewingHistoryIdx === null]; the history cursor is
    never given another value than [null], so the messages displayed are the
    transcript.  The stop button is shown when [isActive || isConnecting]. *)
Definition start_button_shown (s : State) : bool :=
  (List.length (transcription s) =? 0)%nat
  && negb (isActive s) && negb (isConnecting s).

Definition stop_button_shown (s : State) : bool :=
  isActive s || isConnecting s.

(** The state [stopSession] leaves behind: flags down, handles released. *)
Definition torn_down (s : State) : Prop :=
  isActive s = false
  /\ isConnecting s = false
  /\ sessionPromiseRef s = None
  /\ audioContextInRef s = None
  /\ audioContextOutRef s = None
  /\ sourcesRef s = []
  /\ (animationFrameRef s = None \/ animationFrameRef s = Some 0%Z)
  /\ analyzerRef s = None
  /\ audioLevel s = 0.

(** *** [translateMessage]

    The part up to the [await]: either nothing happens, or the marker is set
    and, with a key, one request goes out.  Without a key the [return]
    inside [try] runs the [finally] at once. *)
Definition translateMessage (env : KeyEnv) (idx : nat) (s : State)
    : State * list Effect :=
  match nth_error (transcription s) idx with
  | None => (s, [])
  | Some msg =>
      if match role msg with tutor => false | user => true end
         || truthy_opt (translation msg)
         || match isTranslatingIdx s with Some _ => true | None => false end
      then (s, [])
      else
        let s := set_isTranslatingIdx (Some idx) s in
        match getGeminiKey env with
        | None => (set_isTranslatingIdx None s, [])
        | Some apiKey =>
            (s, [GenerateContent apiKey "gemini-3-flash-preview"
                   (Translate (targetTransLang s) (text msg))])
        end
  end.

(** How the awaited request ends: [response.text], or an exception. *)
Inductive Response :=
| Resolved (response_text : option string)
| Failed.

(** [prev.map((m, i) => i === idx ? { ...m, translation } : m)]. *)
Fixpoint map_index {A} (f : A -> nat -> A) (i : nat) (l : list A) : list A :=
  match l with
  | [] => []
  | m :: l' => f m i :: map_index f (S i) l'
  end.

(** The part of [translateMessage] after the [await]. *)
Definition translateMessage_resume (idx : nat) (r : Response) (s : State) : State :=
  let s :=
    match r with
    | Resolved (Some translatedText) =>
        if truthy_string translatedText then
          set_transcription
            (map_index
               (fun m i =>
                  if (i =? idx)%nat
                  then mkMessage (role m) (text m) (Some translatedText)
                  else m)
               0 (transcription s))
            s
        else s
    | _ => s
    end in
  set_isTranslatingIdx None s.

(** *** [startSession], up to its first [await]

    [onAction] tells whether the optional prop is given.  The history
    cursor [viewingHistoryIdx], which the function resets first, is not part
    of [State]; what follows the microphone grant (contexts, analyser,
    [ai.live.connect]) is left out. *)
Definition startSession (env : KeyEnv) (onAction : bool) (s : State)
    : State * list Effect :=
  if isActive s || isConnecting s then (s, [])
  else
    let s := set_isConnecting true s in
    let s := set_transcription [] s in
    let e := if onAction then [OnAction] else [] in
    match getGeminiKey env with
    | None => (set_isConnecting false s, e ++ [Alert KEY_MISSING_MESSAGE])
    | Some _ => (s, e ++ [GetUserMedia])
    end.

(** *** Delivering messages one after the other

    Each message comes with the output context as it is at that moment and
    the node created for it.  A handler that rejected does not stop the
    channel: the next message is handled all the same. *)
Definition Delivery : Type :=
  AudioContext * AudioBufferSourceNode * LiveServerMessage.

Fixpoint deliver (ms : list Delivery) (s : State) : State * list Effect :=
  match ms with
  | [] => (s, [])
  | (ctx, source, m) :: ms' =>
      let o := onmessage ctx source m s in
      let (s', e') := deliver ms' (outcome_state o) in
      (s', outcome_effects o ++ e')
  end.

(** The buffer a fragment decodes to, when it does. *)
Definition fragment_buffer (m : LiveServerMessage) : option AudioBuffer :=
  match inlineData m with
  | Some base64Audio =>
      match decode base64Audio with
      | Some bytes => decodeAudioData bytes 24000 1
      | None => None
      end
  | None => None
  end.

Definition fragment_duration (m : LiveServerMessage) : Q :=
  match fragment_buffer m with
  | Some b => duration b
  | None => 0
  end.

(** A delivery whose audio part plays: a non-empty fragment that decodes,
    on a context that is not closed. *)
Definition plays (d : Delivery) : bool :=
  let '(ctx, _, m) := d in
  truthy_opt (inlineData m) && negb (is_closed ctx)
  && match fragment_buffer m with Some _ => true | None => false end.

(** A delivery whose audio part raises no exception: it plays, or there is
    nothing to play. *)
Definition audio_completes (ctx : AudioContext) (m : LiveServerMessage) : bool :=
  match inlineData m with
  | Some base64Audio =>
      negb (truthy_string base64Audio) || is_closed ctx
      || match fragment_buffer m with Some _ => true | None => false end
  | None => true
  end.

(** *** The message as the channel hands it over

    The first line of [onmessage] reads
    [message.serverContent?.modelTurn?.parts[0]?.inlineData?.data].  The
    access to [parts] is not optional: a [modelTurn] that has no [parts]
    array makes the line throw a [TypeError], before anything is written. *)
Inductive ModelTurn :=
| NoModelTurn                         (* serverContent or modelTurn undefined *)
| WithoutParts                        (* modelTurn is there, parts is undefined *)
| Parts (first_data : option string)  (* parts[0]?.inlineData?.data *).

Record WireMessage := mkWireMessage {
  modelTurn : ModelTurn;
  wire_inputTranscription : option (option string);
  wire_outputTranscription : option (option string);
  wire_turnComplete : bool;
  wire_interrupted : bool
}.

(** What the first line leaves in [base64Audio]; [None] is the
    [TypeError]. *)
Definition read_base64Audio (w : WireMessage) : option (option string) :=
  match modelTurn w with
  | NoModelTurn => Some None
  | WithoutParts => None
  | Parts first_data => Some first_data
  end.

Definition read (w : WireMessage) : option LiveServerMessage :=
  match read_base64Audio w with
  | Some base64Audio =>
      Some (mkLiveServerMessage base64Audio (wire_inputTranscription w)
              (wire_outputTranscription w) (wire_turnComplete w)
              (wire_interrupted w))
  | None => None
  end.

(** [onmessage] from its first line on. *)
Definition onmessage_wire (audioCtxOut : AudioContext)
    (source : AudioBufferSourceNode) (w : WireMessage) (s : State) : Outcome :=
  match read w with
  | Some message => onmessage audioCtxOut source message s
  | None => Rejected s []
  end.

(** The handler raises no exception on the message: the first line reads
    it, and its audio part completes. *)
Definition raises_no_exception (ctx : AudioContext) (w : WireMessage) : bool :=
  match read w with
  | Some message => audio_completes ctx message
  | None => false
  end.

(** The [start] calls of a run: start time and duration of each buffer. *)
Fixpoint scheduled (e : list Effect) : list (Q * Q) :=
  match e with
  | [] => []
  | SourceStart _ when buffer :: e' => (when, duration buffer) :: scheduled e'
  | _ :: e' => scheduled e'
  end.

(** Clock reading and buffer duration of each delivery. *)
Definition arrivals (ms : list Delivery) : list (Q * Q) :=
  map (fun d : Delivery =>
         let '(ctx, _, m) := d in (currentTime ctx, fragment_duration m)) ms.

(** Specification side, the playback clock of the data model: "each newly
    decoded buffer is scheduled at max(cursor, current time), and cursor is
    advanced by that buffer's duration". *)
Fixpoint clock_schedule (cursor : Q) (arr : list (Q * Q)) : list (Q * Q) :=
  match arr with
  | [] => []
  | (now, d) :: rest =>
      let start := Qmax cursor now in
      (start, d) :: clock_schedule (start + d) rest
  end.

Fixpoint clock_cursor (cursor : Q) (arr : list (Q * Q)) : Q :=
  match arr with
  | [] => cursor
  | (now, d) :: rest => clock_cursor (Qmax cursor now + d) rest
  end.

(** Specification side: the running prefix sums of the durations, from
    [start]. *)
Fixpoint prefix_sums (start : Q) (durations : list Q) : list Q :=
  match durations with
  | [] => []
  | d :: ds => start :: prefix_sums (start + d) ds
  end.

Definition total (durations : list Q) : Q := fold_right Qplus 0 durations.

(** Each buffer ends before the next one starts. *)
Fixpoint non_overlapping (sched : list (Q * Q)) : Prop :=
  match sched with
  | [] => True
  | (start, d) :: rest =>
      match rest with
      | [] => True
      | (start', _) :: _ => start + d <= start'
      end /\ non_overlapping rest
  end.

(** Start times never decrease. *)
Fixpoint non_decreasing (l : list Q) : Prop :=
  match l with
  | [] => True
  | x :: r => match r with [] => True | y :: _ => x <= y end /\ non_decreasing r
  end.

(** *** The screen as a transition system

    A world is the component and the translation requests that were sent and
    not answered yet.  Handlers run against the component as it is when
    their event is handled.  [Stop] is a click on the stop button, which
    holds the [stopSession] of the latest render; [ChannelStop] is
    [onclose], [onerror] or the [catch] of [startSession], which hold the
    [stopSession] of the render the session was started from, with the
    transcript and the language of that render. *)
Record World := mkWorld {
  component : State;
  in_flight : list nat
}.

Inductive Event :=
| Open (lang : Language)
| ServerMessage (audioCtxOut : AudioContext) (source : AudioBufferSourceNode)
    (message : LiveServerMessage)
| SourceEnded (source : AudioBufferSourceNode)
| Stop (lang : Language) (newId : string) (now : Z)
| ClickTranslate (env : KeyEnv) (idx : nat)
| TranslationDone (r : Response)
| ChannelStop (transcription_seen : list Message) (lang : Language)
    (newId : string) (now : Z).

Definition requests (e : list Effect) : nat :=
  List.length (filter (fun x => match x with GenerateContent _ _ _ => true | _ => false end) e).

(** [None]: the event cannot happen (an answer with no request in flight). *)
Definition handle (w : World) (ev : Event) : option World :=
  match ev with
  | Open lang => Some (mkWorld (fst (onopen lang (component w))) (in_flight w))
  | ServerMessage ctx source m =>
      Some (mkWorld (outcome_state (onmessage ctx source m (component w)))
                    (in_flight w))
  | SourceEnded source => Some (mkWorld (onended source (component w)) (in_flight w))
  | Stop lang newId now =>
      Some (mkWorld (fst (stopSession lang newId now (component w))) (in_flight w))
  | ClickTranslate env idx =>
      let (s, e) := translateMessage env idx (component w) in
      Some (mkWorld s (in_flight w ++ repeat idx (requests e)))
  | TranslationDone r =>
      match in_flight w with
      | [] => None
      | idx :: rest => Some (mkWorld (translateMessage_resume idx r (component w)) rest)
      end
  | ChannelStop transcription_seen lang newId now =>
      Some (mkWorld
              (fst (stopSession_closure transcription_seen lang newId now
                      (component w)))
              (in_flight w))
  end.

Fixpoint run (w : World) (evs : list Event) : option World :=
  match evs with
  | [] => Some w
  | ev :: evs' =>
      match handle w ev with
      | Some w' => run w' evs'
      | None => None
      end
  end.

(** The marker and the requests in flight agree. *)
Definition consistent (w : World) : Prop :=
  in_flight w = match isTranslatingIdx (component w) with
                | Some idx => [idx]
                | None => []
                end.

(** The text a message adds to a transcript buffer: that of its fragment, if
    it carries one. *)
Definition fragment (t : option (option string)) : string :=
  match t with
  | Some v => or_empty v
  | None => ""
  end.

(** Specification side: the messages a turn-complete signal commits, in the
    words of the contract: a user message if the input buffer is non-empty,
    then a tutor message if the output buffer is non-empty. *)
Definition committed (input output : string) : list Message :=
  (if (input =? "")%string then [] else [mkMessage user input None])
  ++ (if (output =? "")%string then [] else [mkMessage tutor output None]).

(** *** Example inputs *)

(** Two fragments of one and two frames, arriving while the clock reads 0. *)
Definition two_fragments : list Delivery :=
  [(mkAudioContext running 0, 1%nat,
    mkLiveServerMessage (Some "AAA=") None None false false);
   (mkAudioContext running 0, 2%nat,
    mkLiveServerMessage (Some "AAAAAA==") None None false false)].

(** Three sources pending and the cursor at 3.5 s. *)
Definition three_pending : State :=
  set_sourcesRef [4; 5; 6]%nat (set_nextStartTimeRef (7 # 2) initial).

(** A running session after one exchange. *)
Definition conversation : State :=
  mkState true false
    [mkMessage tutor (GREETINGS Ingles) None; mkMessage user "Hi there" None]
    [] 0 PortuguesBrasil None "" ""
    (Some 1%nat) (Some (mkAudioContext running 12)) (Some (mkAudioContext running 12))
    (25 # 2) [8; 9]%nat (Some 3%nat) (Some 41%Z).

(** The screen right after the channel opened. *)
Definition greeted : State := fst (onopen Ingles initial).

(** Two clicks on the first message, the answer, and a third click. *)
Definition three_clicks : list Event :=
  [ClickTranslate stored_key 0; ClickTranslate stored_key 0;
   TranslationDone (Resolved (Some "Hello!")); ClickTranslate stored_key 0].

(** *** The level meter: [updateLevel], the closure of [startSession]

    [dataArray] is what [analyzer.getByteFrequencyData] fills in (128 bins
    for [fftSize = 256]); [handle] is what [requestAnimationFrame] returns.
    The boolean tells whether another frame was requested. *)
(** [dataArray.reduce((a, b) => a + b, 0) / dataArray.length]; the analyser
    never hands an empty array, for which JavaScript gives [NaN]. *)
Definition average (dataArray : list Byte.byte) : Q :=
  inject_Z (fold_left (fun a b => (a + Z.of_N (Byte.to_N b))%Z) dataArray 0%Z)
  / inject_Z (Z.of_nat (List.length dataArray)).

Definition updateLevel (dataArray : list Byte.byte) (handle : Z) (s : State)
    : State * bool :=
  match analyzerRef s with
  | None => (s, false)
  | Some _ =>
      let s := set_audioLevel (average dataArray / 128) s in
      (set_animationFrameRef (Some handle) s, true)
  end.

(** Events that leave the slots of the transcript alone: they can only add
    messages at its end. *)
Definition quiet (ev : Event) : bool :=
  match ev with
  | ServerMessage _ _ _ | SourceEnded _ | Stop _ _ _
  | ChannelStop _ _ _ _ => true
  | _ => false
  end.

(** A delivery the handler gets through: its audio part raises no
    exception, so its transcript part is reached. *)
Definition heard (d : Delivery) : bool :=
  audio_completes (fst (fst d)) (snd d).

(** The text the deliveries of a run add to each transcript buffer: the
    fragments of those that are heard, in arrival order. *)
Definition input_fragments (ms : list Delivery) : string :=
  fold_right
    (fun d acc =>
       if heard d then (fragment (inputTranscription (snd d)) ++ acc)%string
       else acc)
    "" ms.

Definition output_fragments (ms : list Delivery) : string :=
  fold_right
    (fun d acc =>
       if heard d then (fragment (outputTranscription (snd d)) ++ acc)%string
       else acc)
    "" ms.

(** The range of an [Int16Array] element. *)
Definition int16 (v : Z) : Prop := (-32768 <= v <= 32767)%Z.

(** The effects of [stopSession], block by block, read off a state. *)
Definition closing (side : Side) (ref : option AudioContext) : list Effect :=
  match ref with
  | Some ctx => if is_closed ctx then [] else [ContextClose side]
  | None => []
  end.

Definition teardown_effects (s : State) : list Effect :=
  closing Input (audioContextInRef s)
  ++ closing Output (audioContextOutRef s)
  ++ map SourceStop (sourcesRef s)
  ++ match animationFrameRef s with
     | Some handle => if (handle =? 0)%Z then [] else [CancelAnimationFrame handle]
     | None => []
     end
  ++ match sessionPromiseRef s with Some session => [SessionClose session] | None => [] end.

Definition is_stop (e : Effect) : bool :=
  match e with SourceStop _ => true | _ => false end.

(** An answer that brings no translated text. *)
Definition without_text (r : Response) : bool :=
  match r with
  | Resolved (Some translatedText) => negb (truthy_string translatedText)
  | Resolved None => true
  | Failed => true
  end.

End LiveChat.

(** ** CultureHub: culture search and expression playback *)

Module CultureHub.

Import Gemini.

Inductive Prompt :=
| Culture (language : Language) (query : option string)
| Say (language : Language) (phrase : string).

Inductive Effect :=
| OnAction
| GenerateContent (apiKey : option string) (model : string) (contents : Prompt).

Record GroundingSource := mkGroundingSource {
  title : string;
  uri : string
}.

Record State := mkState {
  cultureData : option string;   (* the parsed answer, kept as its JSON text *)
  isLoading : bool;
  playingAudioIdx : option nat;
  error : option string;
  sources : list GroundingSource
}.

(** [playExpression], up to its [await].  The client is built from
    [process.env.API_KEY] as it is; [getGeminiKey] is not consulted.
    Whether [new GoogleGenAI] accepts a key, a missing one included, is the
    SDK's business: [sdk_accepts] says so.  When it throws, the [catch]
    clears the marker. *)
Definition playExpression (sdk_accepts : option string -> bool) (env : KeyEnv)
    (language : Language) (phrase : string) (index : nat) (s : State)
    : State * list Effect :=
  match playingAudioIdx s with
  | Some _ => (s, [])
  | None =>
      let apiKey := process_env_API_KEY env in
      if sdk_accepts apiKey then
        (mkState (cultureData s) (isLoading s) (Some index) (error s) (sources s),
         [GenerateContent apiKey "gemini-2.5-flash-preview-tts"
            (Say language phrase)])
      else
        (mkState (cultureData s) (isLoading s) None (error s) (sources s), [])
  end.

(** [fetchCultureData], up to its [await]. *)
Definition fetchCultureData (env : KeyEnv) (onAction : bool) (language : Language)
    (query : option string) (s : State) : State * list Effect :=
  let s := mkState (cultureData s) true (playingAudioIdx s) None [] in
  let e := if onAction then [OnAction] else [] in
  match getGeminiKey env with
  | None =>
      (mkState (cultureData s) false (playingAudioIdx s)
         (Some KEY_MISSING_MESSAGE) (sources s), e)
  | Some apiKey =>
      (s, e ++ [GenerateContent (Some apiKey) "gemini-3-flash-preview"
                  (Culture language (if truthy_opt query then query else None))])
  end.

Definition idle : State := mkState None false None None [].

(** *** The answer to [fetchCultureData] *)

Definition FETCH_FAILED_MESSAGE : string :=
  "Houve um problema ao buscar dados em tempo real. Tente novamente em instantes.".

(** A grounding chunk is seen through [chunk.web]: absent, or a title that
    may be missing and a uri. *)
Record Web := mkWeb {
  web_title : option string;
  web_uri : string
}.

Definition GroundingChunk : Type := option Web.

(** [groundingChunks.filter(chunk => chunk.web).map(chunk => ({ title:
    chunk.web.title || "Fonte externa", uri: chunk.web.uri }))]: the chunks
    with a [web] part, each turned into a source, in order. *)
Definition extractSources (groundingChunks : list GroundingChunk)
    : list GroundingSource :=
  flat_map (fun chunk =>
              match chunk with
              | Some web =>
                  [mkGroundingSource
                     (if truthy_opt (web_title web) then or_empty (web_title web)
                      else "Fonte externa")
                     (web_uri web)]
              | None => []
              end)
           groundingChunks.

(** The [web] parts of the chunks that have one, in the order of the
    chunks. *)
Definition web_parts (groundingChunks : list GroundingChunk) : list Web :=
  flat_map (fun chunk => match chunk with Some web => [web] | None => [] end)
           groundingChunks.

Record Response := mkResponse {
  groundingChunks : option (list GroundingChunk);
    (* response.candidates?.[0]?.groundingMetadata?.groundingChunks *)
  response_text : option string
}.

Inductive Answer :=
| Resolved (response : Response)
| Failed.

(** The part of [fetchCultureData] after the [await].  [JSON_parse] is the
    platform's parser: [None] is its [SyntaxError], [Some v] the parsed
    value, kept as text, [Some None] being [null]. *)
Definition fetchCultureData_resume (JSON_parse : string -> option (option string))
    (a : Answer) (s : State) : State :=
  let s :=
    match a with
    | Failed =>
        mkState (cultureData s) (isLoading s) (playingAudioIdx s)
          (Some FETCH_FAILED_MESSAGE) (sources s)
    | Resolved response =>
        let s :=
          match groundingChunks response with
          | Some chunks =>
              mkState (cultureData s) (isLoading s) (playingAudioIdx s) (error s)
                (extractSources chunks)
          | None => s
          end in
        let text := or_empty (response_text response) in
        match JSON_parse (if truthy_string text then text else "{}") with
        | Some parsed =>
            mkState parsed (isLoading s) (playingAudioIdx s) (error s) (sources s)
        | None =>
            mkState (cultureData s) (isLoading s) (playingAudioIdx s)
              (Some FETCH_FAILED_MESSAGE) (sources s)
        end
    end in
  mkState (cultureData s) false (playingAudioIdx s) (error s) (sources s).

(** *** The answer to [playExpression] *)

Inductive SpeechAnswer :=
| Spoken (base64Audio : option string)
    (* response.candidates?.[0]?.content?.parts?.[0]?.inlineData?.data *)
| SpeechFailed.

Definition release (s : State) : State :=
  mkState (cultureData s) (isLoading s) None (error s) (sources s).

(** The part of [playExpression] after the [await]: the buffer that starts
    playing, if any.  The [atob] loop and [decodeAudioData] of this screen
    are those of [LiveChat], letter for letter; an exception is caught and
    releases the marker. *)
Definition playExpression_resume (a : SpeechAnswer) (s : State)
    : State * option LiveChat.AudioBuffer :=
  match a with
  | Spoken (Some base64Audio) =>
      if truthy_string base64Audio then
        match LiveChat.decode base64Audio with
        | Some bytes =>
            match LiveChat.decodeAudioData bytes 24000 1 with
            | Some audioBuffer => (s, Some audioBuffer)
            | None => (release s, None)
            end
        | None => (release s, None)
        end
      else (release s, None)
  | Spoken None => (release s, None)
  | SpeechFailed => (release s, None)
  end.

(** [source.onended]. *)
Definition playExpression_ended (s : State) : State := release s.

End CultureHub.

(** ** VisualScan: image analysis and its translation *)

Module VisualScan.

Import Gemini.

Inductive Prompt :=
| Analyze (language : Language) (image : string)
| TranslateAnalysis (target : Language) (analysis : string).

Inductive Effect :=
| OnAction
| Alert (message : string)
| GenerateContent (apiKey : string) (model : string) (contents : Prompt).

Record State := mkState {
  image : option string;
  result : option string;
  isScanning : bool;
  translation : option string;
  isTranslating : bool;
  targetTransLang : Language
}.

(** [scanImage], up to its [await]. *)
Definition scanImage (env : KeyEnv) (onAction : bool) (language : Language)
    (base64Img : string) (s : State) : State * list Effect :=
  let s := mkState (image s) None true None (isTranslating s) (targetTransLang s) in
  let e := if onAction then [OnAction] else [] in
  match getGeminiKey env with
  | None =>
      (mkState (image s) (result s) false (translation s) (isTranslating s)
         (targetTransLang s),
       e ++ [Alert KEY_MISSING_MESSAGE])
  | Some apiKey =>
      (s, e ++ [GenerateContent apiKey "gemini-3-flash-preview"
                  (Analyze language base64Img)])
  end.

(** [translateResult], up to its [await]. *)
Definition translateResult (env : KeyEnv) (s : State) : State * list Effect :=
  match result s with
  | None => (s, [])
  | Some analysis =>
      if negb (truthy_string analysis) || isTranslating s then (s, [])
      else
        let s := mkState (image s) (result s) (isScanning s) (translation s) true
                   (targetTransLang s) in
        match getGeminiKey env with
        | None =>
            (mkState (image s) (result s) (isScanning s) (translation s) false
               (targetTransLang s), [])
        | Some apiKey =>
            (s, [GenerateContent apiKey "gemini-3-flash-preview"
                   (TranslateAnalysis (targetTransLang s) analysis)])
        end
  end.

(** The screen after an analysis came back. *)
Definition analysed : State :=
  mkState (Some "data:image/jpeg;base64,AAAA") (Some "A red bicycle.") false
    None false PortuguesBrasil.

(** *** The answers to [scanImage] and [translateResult] *)

(** [hay.includes(needle)]. *)
Fixpoint includes (needle hay : string) : bool :=
  if String.prefix needle hay then true
  else
    match hay with
    | EmptyString => false
    | String _ hay' => includes needle hay'
    end.

Inductive Answer :=
| Resolved (response_text : option string)
| Failed (message : option string).

(** The part of [scanImage] after the [await]. *)
Definition scanImage_resume (a : Answer) (s : State) : State :=
  let shown :=
    match a with
    | Resolved response_text => response_text
    | Failed message =>
        Some (if match message with
                 | Some m => includes "503" m
                 | None => false
                 end
              then "Servidor temporariamente indisponível."
              else "Falha na análise.")
    end in
  mkState (image s) shown false (translation s) (isTranslating s)
    (targetTransLang s).

(** The part of [translateResult] after the [await]. *)
Definition translateResult_resume (a : Answer) (s : State) : State :=
  let shown :=
    match a with
    | Resolved response_text => response_text
    | Failed _ => Some "Erro ao traduzir análise."
    end in
  mkState (image s) (result s) (isScanning s) shown false (targetTransLang s).

(** *** The progress messages of a scan *)

Definition SCAN_MESSAGES : list string :=
  ["Iniciando varredura..."; "Processando imagem..."; "Analisando contexto...";
   "Traduzindo ambiente..."; "Gerando leitura final..."].

(** The interval callback: [(prev + 1) % SCAN_MESSAGES.length]. *)
Definition nextScanMessage (prev : nat) : nat :=
  ((prev + 1) mod List.length SCAN_MESSAGES)%nat.

End VisualScan.

(** * Properties *)

(** ** Key resolution *)

Section KeyResolution.

Import Gemini.

Lemma longer_than_Some n s :
  longer_than n (Some s) = (n <? String.length s)%nat.
Proof.
  unfold longer_than. destruct s as [|c s]; simpl.
  - symmetry. apply Nat.ltb_ge. lia.
  - reflexivity.
Qed.

(** The test of the code, [v && v.length > 10], is availability. *)
Lemma longer_than_available v : longer_than 10 v = available v.
Proof. destruct v as [s|]; [apply longer_than_Some|reflexivity]. Qed.

Lemma longer_than_drop_short v :
  longer_than 10 (drop_short v) = longer_than 10 v.
Proof.
  destruct v as [s|]; [|reflexivity].
  unfold drop_short, too_short.
  destruct (Nat.leb_spec (String.length s) 10) as [Hle|Hgt]; [|reflexivity].
  rewrite longer_than_Some. simpl. symmetry. apply Nat.ltb_ge. exact Hle.
Qed.

Lemma drop_short_kept v : longer_than 10 v = true -> drop_short v = v.
Proof.
  destruct v as [s|]; [|reflexivity].
  rewrite longer_than_Some. intros H%Nat.ltb_lt.
  unfold drop_short, too_short.
  destruct (Nat.leb_spec (String.length s) 10); [lia|reflexivity].
Qed.

Lemma longer_than_absent_or_short v :
  v = None \/ too_short v = true -> longer_than 10 v = false.
Proof.
  intros [->|H]; [reflexivity|].
  destruct v as [s|]; [|reflexivity].
  rewrite longer_than_Some. apply Nat.ltb_ge. apply Nat.leb_le. exact H.
Qed.

(** C7. [getGeminiKey] returns the first available candidate in the order
    localStorage value, build-time [VITE_API_KEY], runtime
    [process.env.API_KEY], and [null] when none is available; a candidate is
    available when it is set and passes the length test of the code. *)
Theorem getGeminiKey_priority_order (e : KeyEnv) :
  getGeminiKey e = first_available available (candidates e).
Proof.
  unfold getGeminiKey, candidates. cbn [first_available].
  rewrite <- !longer_than_available.
  destruct (longer_than 10 (localStorage_gemini_api_key e)); [reflexivity|].
  destruct (longer_than 10 (VITE_API_KEY e)); [reflexivity|].
  destruct (longer_than 10 (process_env_API_KEY e)); reflexivity.
Qed.

(** C9. A candidate of length 10 or less counts as absent: it is passed
    over and the next candidate in the order is looked at.  So the VITE key
    is returned when it is longer than 10 and the localStorage value is
    missing or too short, and the process key when it is longer than 10 and
    both values before it are missing or too short; removing every
    too-short candidate from the environment does not change the result; a
    returned key is longer than 10; and the result is [null] when every
    candidate is missing or too short. *)
Theorem getGeminiKey_short_is_absent (e : KeyEnv) :
  getGeminiKey (without_short e) = getGeminiKey e
  /\ (forall k, getGeminiKey e = Some k -> (10 < String.length k)%nat)
  /\ (Forall (fun c => c = None \/ too_short c = true) (candidates e) ->
      getGeminiKey e = None)
  /\ (available (localStorage_gemini_api_key e) = true ->
      getGeminiKey e = localStorage_gemini_api_key e)
  /\ (localStorage_gemini_api_key e = None
      \/ too_short (localStorage_gemini_api_key e) = true ->
      available (VITE_API_KEY e) = true ->
      getGeminiKey e = VITE_API_KEY e)
  /\ (localStorage_gemini_api_key e = None
      \/ too_short (localStorage_gemini_api_key e) = true ->
      VITE_API_KEY e = None \/ too_short (VITE_API_KEY e) = true ->
      available (process_env_API_KEY e) = true ->
      getGeminiKey e = process_env_API_KEY e).
Proof.
  split; [|split; [|split; [|split; [|split]]]].
  - unfold getGeminiKey, without_short; cbn.
    rewrite !longer_than_drop_short.
    destruct (longer_than 10 (localStorage_gemini_api_key e)) eqn:H1;
      [apply drop_short_kept, H1|].
    destruct (longer_than 10 (VITE_API_KEY e)) eqn:H2;
      [apply drop_short_kept, H2|].
    destruct (longer_than 10 (process_env_API_KEY e)) eqn:H3;
      [apply drop_short_kept, H3|reflexivity].
  - intros k. unfold getGeminiKey.
    destruct (longer_than 10 (localStorage_gemini_api_key e)) eqn:H1;
      [intros Hk; rewrite Hk, longer_than_Some in H1; apply Nat.ltb_lt, H1|].
    destruct (longer_than 10 (VITE_API_KEY e)) eqn:H2;
      [intros Hk; rewrite Hk, longer_than_Some in H2; apply Nat.ltb_lt, H2|].
    destruct (longer_than 10 (process_env_API_KEY e)) eqn:H3;
      [intros Hk; rewrite Hk, longer_than_Some in H3; apply Nat.ltb_lt, H3|].
    discriminate.
  - unfold candidates. intros H.
    inversion H as [|? ? Ha H']; subst.
    inversion H' as [|? ? Hb H'']; subst.
    inversion H'' as [|? ? Hc _]; subst.
    unfold getGeminiKey.
    rewrite (longer_than_absent_or_short _ Ha),
            (longer_than_absent_or_short _ Hb),
            (longer_than_absent_or_short _ Hc).
    reflexivity.
  - intros Ha. unfold getGeminiKey.
    now rewrite longer_than_available, Ha.
  - intros Ha Hb. unfold getGeminiKey.
    rewrite (longer_than_absent_or_short _ Ha).
    now rewrite longer_than_available, Hb.
  - intros Ha Hb Hc. unfold getGeminiKey.
    rewrite (longer_than_absent_or_short _ Ha),
            (longer_than_absent_or_short _ Hb).
    now rewrite longer_than_available, Hc.
Qed.

Lemma getGeminiKey_short_is_absent_witness :
  getGeminiKey (Build_KeyEnv (Some "short") (Some "AIzaSyExample-0123456789") None)
  = Some "AIzaSyExample-0123456789"
  /\ getGeminiKey
       (Build_KeyEnv (Some "short") (Some "0123456789")
          (Some "AIzaSyExample-0123456789"))
     = Some "AIzaSyExample-0123456789"
  /\ getGeminiKey (Build_KeyEnv (Some "short") None (Some "0123456789")) = None.
Proof.
  split; [|split].
  - apply (proj1 (proj2 (proj2 (proj2 (proj2
             (getGeminiKey_short_is_absent
                (Build_KeyEnv (Some "short")
                   (Some "AIzaSyExample-0123456789") None)))))));
      [right|]; reflexivity.
  - apply (proj2 (proj2 (proj2 (proj2 (proj2
             (getGeminiKey_short_is_absent
                (Build_KeyEnv (Some "short") (Some "0123456789")
                   (Some "AIzaSyExample-0123456789"))))))));
      [right|right|]; reflexivity.
  - apply (proj1 (proj2 (proj2 (getGeminiKey_short_is_absent
                         (Build_KeyEnv (Some "short") None (Some "0123456789")))))).
    unfold candidates; cbn.
    repeat constructor; right; reflexivity.
Defined.

End KeyResolution.

(** ** Loops over typed arrays *)

Section Loops.

Context {A : Type}.

Lemma set_index_app_head (pre : list A) (x v : A) (rest : list A) :
  set_index (List.length pre) v (pre ++ x :: rest) = pre ++ v :: rest.
Proof.
  induction pre as [|p pre IH]; simpl; [reflexivity|]. now rewrite IH.
Qed.

Lemma fill_from (f : nat -> A) (d : A) (k : nat) :
  forall pre : list A,
    fold_left (fun acc i => set_index i (f i) acc) (seq (List.length pre) k)
              (pre ++ repeat d k)
    = pre ++ map f (seq (List.length pre) k).
Proof.
  induction k as [|k IH]; intros pre; simpl.
  - reflexivity.
  - rewrite set_index_app_head.
    replace (pre ++ f (List.length pre) :: repeat d k)
      with ((pre ++ [f (List.length pre)]) ++ repeat d k)
      by (rewrite <- app_assoc; reflexivity).
    replace (S (List.length pre)) with (List.length (pre ++ [f (List.length pre)]))
      by (rewrite length_app; simpl; lia).
    rewrite IH, <- app_assoc. simpl.
    rewrite length_app. simpl.
    replace (List.length pre + 1)%nat with (S (List.length pre)) by lia.
    reflexivity.
Qed.

(** A loop that writes slot [i] at step [i] of a fresh array builds the
    array of the written values. *)
Lemma for_range_set_index (f : nat -> A) (d : A) (n : nat) :
  for_range n (fun i acc => set_index i (f i) acc) (repeat d n)
  = map f (seq 0 n).
Proof.
  unfold for_range. exact (fill_from f d n []).
Qed.

End Loops.

Lemma get_charCodes (s : string) :
  map (charCodeAt_u8 s) (seq 0 (String.length s))
  = map byte_of_ascii (list_ascii_of_string s).
Proof.
  induction s as [|c s IH]; simpl; [reflexivity|].
  f_equal. rewrite <- seq_shift, map_map. exact IH.
Qed.

Lemma append_chars (bytes : list Byte.byte) :
  forall acc : string,
    fold_left (fun binary b => (binary ++ LiveChat.fromCharCode b)%string) bytes acc
    = (acc ++ string_of_list_ascii (map ascii_of_byte bytes))%string.
Proof.
  induction bytes as [|b bytes IH]; intros acc; simpl.
  - induction acc as [|c acc IHacc]; simpl; [reflexivity|]. now rewrite <- IHacc.
  - rewrite IH. unfold LiveChat.fromCharCode.
    induction acc as [|c acc IHacc]; simpl; [reflexivity|]. now rewrite IHacc.
Qed.

(** ** Base64 *)

Section Base64Facts.

Import Base64.

Local Ltac Zify.zify_post_hook ::= Z.to_euclidean_division_equations.

(** Induction three elements at a time, the way octets are grouped. *)
Lemma list_ind3 {A} (P : list A -> Prop) :
  P [] -> (forall a, P [a]) -> (forall a b, P [a; b]) ->
  (forall a b c r, P r -> P (a :: b :: c :: r)) ->
  forall l, P l.
Proof.
  intros H0 H1 H2 H3.
  fix IH 1. intros [|a [|b [|c r]]].
  - exact H0.
  - apply H1.
  - apply H2.
  - apply H3, IH.
Qed.

Lemma below_64 (P : N -> bool) :
  forallb P (map N.of_nat (seq 0 64)) = true ->
  forall n, (n < 64)%N -> P n = true.
Proof.
  intros H n Hn. rewrite forallb_forall in H. apply H.
  apply in_map_iff. exists (N.to_nat n). split.
  - apply N2Nat.id.
  - apply in_seq. lia.
Qed.

Lemma sextet_of_char_of_sextet n :
  (n < 64)%N -> sextet_of_char (char_of_sextet n) = Some n.
Proof.
  intros Hn.
  pose proof (below_64 (fun n => option_N_eqb (sextet_of_char (char_of_sextet n)) n)
                eq_refl n Hn) as H.
  cbv beta in H. destruct (sextet_of_char (char_of_sextet n)); [|discriminate].
  apply N.eqb_eq in H. now subst.
Qed.

Lemma char_of_sextet_not_pad n :
  (n < 64)%N -> Ascii.eqb (char_of_sextet n) pad_char = false.
Proof.
  intros Hn.
  apply negb_true_iff.
  exact (below_64 (fun n => negb (Ascii.eqb (char_of_sextet n) pad_char)) eq_refl n Hn).
Qed.

Lemma char_of_sextet_not_space n :
  (n < 64)%N -> is_ascii_whitespace (char_of_sextet n) = false.
Proof.
  intros Hn.
  apply negb_true_iff.
  exact (below_64 (fun n => negb (is_ascii_whitespace (char_of_sextet n))) eq_refl n Hn).
Qed.

Lemma sextets_of_octets_bound l :
  Forall octet l -> Forall sextet (sextets_of_octets l).
Proof.
  unfold octet, sextet.
  induction l as [|a|a b|a b c r IH] using list_ind3; intros H; cbn [sextets_of_octets].
  - constructor.
  - inversion H; subst. repeat constructor; lia.
  - inversion H as [|? ? ? H']; subst. inversion H'; subst.
    repeat constructor; lia.
  - inversion H as [|? ? ? H']; subst. inversion H' as [|? ? ? H'']; subst.
    inversion H''; subst.
    repeat (constructor; [lia|]). now apply IH.
Qed.

Lemma octets_of_sextets_of_octets l :
  Forall octet l -> octets_of_sextets (sextets_of_octets l) = l.
Proof.
  unfold octet.
  induction l as [|a|a b|a b c r IH] using list_ind3; intros H;
    cbn [sextets_of_octets octets_of_sextets].
  - reflexivity.
  - inversion H; subst. f_equal. lia.
  - inversion H as [|? ? ? H']; subst. inversion H'; subst.
    f_equal; [lia|]. f_equal. lia.
  - inversion H as [|? ? ? H']; subst. inversion H' as [|? ? ? H'']; subst.
    inversion H''; subst.
    rewrite IH by assumption.
    f_equal; [lia|]. f_equal; [lia|]. f_equal. lia.
Qed.

(** The three shapes of an encoding: whole groups; a tail of two sextets and
    two pads; a tail of three sextets and one pad. *)
Lemma encoding_shape {A} (l : list A) (sx : list N) :
  List.length sx = List.length (sextets_of_octets (map (fun _ => 0%N) l)) ->
  exists k,
    (List.length sx = 4 * k /\ padding (List.length l) = [])%nat
    \/ (List.length sx = 4 * k + 2 /\ padding (List.length l) = [pad_char; pad_char])%nat
    \/ (List.length sx = 4 * k + 3 /\ padding (List.length l) = [pad_char])%nat.
Proof.
  revert sx.
  induction l as [|a|a b|a b c r IH] using list_ind3; intros sx Hsx.
  - exists 0%nat. left. split; [exact Hsx|reflexivity].
  - exists 0%nat. right. left. split; [exact Hsx|reflexivity].
  - exists 0%nat. right. right. split; [exact Hsx|reflexivity].
  - cbn [map sextets_of_octets List.length] in Hsx.
    destruct sx as [|s1 [|s2 [|s3 [|s4 sx]]]]; try discriminate.
    cbn [List.length] in Hsx.
    destruct (IH sx) as [k Hk]; [lia|].
    assert (Hpad : padding (List.length (a :: b :: c :: r)) = padding (List.length r)).
    { unfold padding. cbn [List.length].
      replace (S (S (S (List.length r)))) with (List.length r + 1 * 3)%nat by lia.
      now rewrite Nat.Div0.mod_add. }
    rewrite Hpad. exists (S k). cbn [List.length].
    destruct Hk as [[? ?]|[[? ?]|[? ?]]]; [left|right; left|right; right];
      (split; [lia|assumption]).
Qed.

Lemma sextets_of_octets_length l :
  List.length (sextets_of_octets l)
  = List.length (sextets_of_octets (map (fun _ => 0%N) l)).
Proof.
  induction l as [|a|a b|a b c r IH] using list_ind3;
    cbn [map sextets_of_octets List.length]; congruence.
Qed.

Lemma filter_keeps_all {A} (f : A -> bool) (l : list A) :
  Forall (fun x => f x = true) l -> filter f l = l.
Proof.
  induction 1 as [|x l Hx _ IH]; simpl; [reflexivity|]. now rewrite Hx, IH.
Qed.

Lemma sextets_of_chars_of_sextets sx :
  Forall sextet sx -> sextets_of_chars (map char_of_sextet sx) = Some sx.
Proof.
  induction 1 as [|n sx Hn _ IH]; simpl; [reflexivity|].
  now rewrite (sextet_of_char_of_sextet n Hn), IH.
Qed.

Lemma mod4_0 k : ((4 * k) mod 4 = 0)%nat.
Proof. rewrite Nat.mul_comm. apply Nat.Div0.mod_mul. Qed.

Lemma mod4_r k r : (r < 4 -> (4 * k + r) mod 4 = r)%nat.
Proof.
  intros Hr. rewrite Nat.add_comm, Nat.mul_comm, Nat.Div0.mod_add.
  now apply Nat.mod_small.
Qed.

(** Dropping the padding of an encoding leaves its characters. *)
Lemma strip_padding_encoding (body pads : list ascii) (k : nat) :
  Forall (fun c => Ascii.eqb c pad_char = false) body ->
  (List.length body = 4 * k /\ pads = [])%nat
  \/ (List.length body = 4 * k + 2 /\ pads = [pad_char; pad_char])%nat
  \/ (List.length body = 4 * k + 3 /\ pads = [pad_char])%nat ->
  strip_padding (body ++ pads) = body.
Proof.
  intros Hbody [[Hlen ->]|[[Hlen ->]|[Hlen ->]]]; unfold strip_padding.
  - rewrite app_nil_r, Hlen, mod4_0. cbn [Nat.eqb].
    destruct (rev body) as [|c1 [|c2 r]] eqn:Hrev; try reflexivity.
    assert (Hin : In c1 body) by (apply in_rev; rewrite Hrev; now left).
    rewrite Forall_forall in Hbody. now rewrite (Hbody c1 Hin).
  - rewrite length_app, Hlen. cbn [List.length].
    replace (4 * k + 2 + 2)%nat with (4 * S k)%nat by lia.
    rewrite mod4_0. cbn [Nat.eqb].
    rewrite rev_app_distr. cbn [rev app].
    change (Ascii.eqb pad_char pad_char) with true. cbn iota.
    apply rev_involutive.
  - rewrite length_app, Hlen. cbn [List.length].
    replace (4 * k + 3 + 1)%nat with (4 * S k)%nat by lia.
    rewrite mod4_0. cbn [Nat.eqb].
    rewrite rev_app_distr. cbn [rev app].
    destruct (rev body) as [|c2 r] eqn:Hrev.
    + apply (f_equal (@List.length ascii)) in Hrev.
      rewrite length_rev, Hlen in Hrev. cbn in Hrev. lia.
    + change (Ascii.eqb pad_char pad_char) with true. cbn iota.
      assert (Hin : In c2 body) by (apply in_rev; rewrite Hrev; now left).
      rewrite Forall_forall in Hbody. rewrite (Hbody c2 Hin).
      rewrite <- (rev_involutive body), Hrev. reflexivity.
Qed.

Lemma octets_of_string (s : string) :
  Forall octet (map N_of_ascii (list_ascii_of_string s)).
Proof.
  apply Forall_forall. intros n Hn. apply in_map_iff in Hn.
  destruct Hn as [c [<- _]]. apply N_ascii_bounded.
Qed.

Lemma string_of_octets (s : string) :
  string_of_list_ascii
    (map ascii_of_N (map N_of_ascii (list_ascii_of_string s))) = s.
Proof.
  rewrite map_map.
  rewrite (map_ext _ (fun c => c)) by (intros c; apply ascii_N_embedding).
  rewrite map_id. apply string_of_list_ascii_of_string.
Qed.

(** [atob] undoes [btoa] on every binary string. *)
Lemma atob_btoa (binary : string) : atob (btoa binary) = Some binary.
Proof.
  unfold atob, btoa.
  set (octets := map N_of_ascii (list_ascii_of_string binary)).
  assert (Hoct : Forall octet octets) by apply octets_of_string.
  assert (Hsx : Forall sextet (sextets_of_octets octets))
    by now apply sextets_of_octets_bound.
  set (body := map char_of_sextet (sextets_of_octets octets)).
  assert (Hnopad : Forall (fun c => Ascii.eqb c pad_char = false) body).
  { apply Forall_map. eapply Forall_impl; [|exact Hsx].
    intros n Hn. now apply char_of_sextet_not_pad. }
  destruct (encoding_shape octets (sextets_of_octets octets)
              (sextets_of_octets_length octets)) as [k Hshape].
  assert (Hshape' :
    (List.length body = 4 * k /\ padding (List.length octets) = [])%nat
    \/ (List.length body = 4 * k + 2
        /\ padding (List.length octets) = [pad_char; pad_char])%nat
    \/ (List.length body = 4 * k + 3
        /\ padding (List.length octets) = [pad_char])%nat).
  { unfold body. rewrite length_map. exact Hshape. }
  rewrite list_ascii_of_string_of_list_ascii.
  rewrite filter_keeps_all.
  2:{ apply Forall_app. split.
      - apply Forall_map. eapply Forall_impl; [|exact Hsx].
        intros n Hn. cbv beta. now rewrite char_of_sextet_not_space.
      - unfold padding.
        destruct (List.length octets mod 3)%nat as [|[|[|?]]];
          repeat constructor. }
  rewrite (strip_padding_encoding body _ k Hnopad Hshape').
  assert (Hmod : (List.length body mod 4 =? 1)%nat = false).
  { apply Nat.eqb_neq.
    destruct Hshape' as [[-> _]|[[-> _]|[-> _]]].
    - rewrite mod4_0. lia.
    - rewrite mod4_r; lia.
    - rewrite mod4_r; lia. }
  rewrite Hmod. unfold body.
  rewrite (sextets_of_chars_of_sextets _ Hsx).
  rewrite (octets_of_sextets_of_octets _ Hoct).
  unfold octets. now rewrite string_of_octets.
Qed.

End Base64Facts.

(** C10. For every byte array [b], decoding the base64 encoding of [b]
    returns [b] (and raises no exception). *)
Theorem decode_encode (b : list Byte.byte) :
  LiveChat.decode (LiveChat.encode b) = Some b.
Proof.
  unfold LiveChat.decode, LiveChat.encode.
  rewrite atob_btoa, for_range_set_index, get_charCodes, append_chars.
  cbn [String.append].
  rewrite list_ascii_of_string_of_list_ascii, map_map.
  rewrite (map_ext _ (fun x => x)) by (intros x; apply byte_of_ascii_of_byte).
  now rewrite map_id.
Qed.

(** ** The playback clock *)

Section PlaybackClock.

Import LiveChat.

Lemma clock_schedule_durations arr :
  forall c, map snd (clock_schedule c arr) = map snd arr.
Proof.
  induction arr as [|[now d] rest IH]; intros c; simpl; [reflexivity|].
  now rewrite IH.
Qed.

Lemma clock_schedule_starts_after_clock arr :
  forall c, Forall2 (fun p a => fst a <= fst p) (clock_schedule c arr) arr.
Proof.
  induction arr as [|[now d] rest IH]; intros c; simpl; constructor.
  - simpl. apply Q.le_max_r.
  - apply IH.
Qed.

Lemma clock_schedule_head_after_cursor arr c p rest :
  clock_schedule c arr = p :: rest -> c <= fst p.
Proof.
  destruct arr as [|[now d] arr]; simpl; [discriminate|].
  intros H; inversion H; subst. simpl. apply Q.le_max_l.
Qed.

Lemma clock_schedule_non_overlapping arr :
  forall c, non_overlapping (clock_schedule c arr).
Proof.
  induction arr as [|[now d] rest IH]; intros c; simpl; [exact I|].
  split; [|apply IH].
  destruct (clock_schedule (Qmax c now + d) rest) as [|[start' d'] tl] eqn:Hs;
    [exact I|].
  exact (clock_schedule_head_after_cursor _ _ _ _ Hs).
Qed.

Lemma clock_schedule_non_decreasing arr :
  Forall (fun a => 0 <= snd a) arr ->
  forall c, non_decreasing (map fst (clock_schedule c arr)).
Proof.
  induction 1 as [|[now d] rest Hd _ IH]; intros c; simpl; [exact I|].
  split; [|apply IH].
  destruct (clock_schedule (Qmax c now + d) rest) as [|[start' d'] tl] eqn:Hs;
    [exact I|].
  apply clock_schedule_head_after_cursor in Hs. simpl in *. lra.
Qed.

Lemma clock_cursor_at_least_total arr :
  forall c, c + total (map snd arr) <= clock_cursor c arr.
Proof.
  induction arr as [|[now d] rest IH]; intros c; simpl.
  - unfold total; simpl. lra.
  - specialize (IH (Qmax c now + d)).
    pose proof (Q.le_max_l c now).
    unfold total in *; simpl in *. lra.
Qed.

(** When no fragment arrives after the cursor it is scheduled at, the
    schedule is the prefix sums and the cursor is the total. *)
Lemma clock_schedule_without_underrun arr :
  forall c c',
    c == c' ->
    Forall2 Qle (map fst arr) (prefix_sums c' (map snd arr)) ->
    Forall2 Qeq (map fst (clock_schedule c arr)) (prefix_sums c' (map snd arr))
    /\ clock_cursor c arr == c' + total (map snd arr).
Proof.
  induction arr as [|[now d] rest IH]; intros c c' Hc H; simpl in *.
  - split; [constructor|]. unfold total; simpl. lra.
  - inversion H as [|? ? ? ? Hnow Hrest]; subst.
    assert (Hmax : Qmax c now == c') by (rewrite Q.max_l; lra).
    destruct (IH (Qmax c now + d) (c' + d)) as [IH1 IH2]; [lra|exact Hrest|].
    split.
    + constructor; [exact Hmax|exact IH1].
    + rewrite IH2. unfold total; simpl. lra.
Qed.

Lemma duration_nonneg b : 0 <= duration b.
Proof. unfold duration, Qle; simpl. lia. Qed.

Lemma fragment_duration_nonneg m : 0 <= fragment_duration m.
Proof.
  unfold fragment_duration. destruct (fragment_buffer m).
  - apply duration_nonneg.
  - lra.
Qed.

End PlaybackClock.

(** ** The message handler *)

Section MessageHandler.

Import LiveChat.

(** The audio part touches the cursor and the source set only. *)
Lemma onmessage_audio_frame ctx source m s :
  let s' := outcome_state (onmessage_audio ctx source m s) in
  transcription s' = transcription s
  /\ currentInputRef s' = currentInputRef s
  /\ currentOutputRef s' = currentOutputRef s
  /\ isTranslatingIdx s' = isTranslatingIdx s.
Proof.
  unfold onmessage_audio.
  destruct (inlineData m) as [a|]; [|cbn; auto].
  destruct (truthy_string a && negb (is_closed ctx)); [|cbn; auto].
  destruct (decode a) as [bytes|]; [|cbn; auto].
  destruct (decodeAudioData bytes 24000 1); cbn; auto.
Qed.

(** The audio part of a delivery that plays. *)
Lemma onmessage_audio_plays ctx source m s :
  plays (ctx, source, m) = true ->
  exists b,
    fragment_buffer m = Some b
    /\ exists s',
        onmessage_audio ctx source m s
        = Completed s'
            [SourceStart source (Qmax (nextStartTimeRef s) (currentTime ctx)) b]
        /\ nextStartTimeRef s'
           = Qmax (nextStartTimeRef s) (currentTime ctx) + duration b
        /\ sourcesRef s' = set_add source (sourcesRef s).
Proof.
  unfold plays, fragment_buffer, onmessage_audio, truthy_opt.
  destruct (inlineData m) as [a|]; [|discriminate].
  intros H. apply andb_prop in H as [H Hb]. rewrite H.
  destruct (decode a) as [bytes|]; [|discriminate].
  destruct (decodeAudioData bytes 24000 1) as [b|]; [|discriminate].
  exists b. split; [reflexivity|].
  eexists. split; [reflexivity|]. cbn. split; reflexivity.
Qed.

(** The audio part of a delivery that raises no exception. *)
Lemma onmessage_audio_completes ctx source m s :
  audio_completes ctx m = true ->
  exists s' e, onmessage_audio ctx source m s = Completed s' e
               /\ incl (sourcesRef s) (sourcesRef s').
Proof.
  unfold audio_completes, fragment_buffer, onmessage_audio.
  destruct (inlineData m) as [a|]; [|intros _; exists s, []; split;
                                       [reflexivity|apply incl_refl]].
  destruct (truthy_string a); cbn [negb orb andb].
  2:{ intros _. exists s, []. split; [reflexivity|apply incl_refl]. }
  destruct (is_closed ctx); cbn [negb orb andb].
  { intros _. exists s, []. split; [reflexivity|apply incl_refl]. }
  destruct (decode a) as [bytes|]; [|discriminate].
  destruct (decodeAudioData bytes 24000 1) as [b|]; [|discriminate].
  intros _. eexists _, _. split; [reflexivity|]. cbn.
  unfold set_add. destruct (existsb _ _); [apply incl_refl|apply incl_appl, incl_refl].
Qed.

(** The transcript part leaves the playback pipeline alone. *)
Lemma onmessage_transcript_frame m s :
  nextStartTimeRef (onmessage_transcript m s) = nextStartTimeRef s
  /\ sourcesRef (onmessage_transcript m s) = sourcesRef s
  /\ isTranslatingIdx (onmessage_transcript m s) = isTranslatingIdx s.
Proof.
  unfold onmessage_transcript.
  destruct (inputTranscription m), (outputTranscription m), (turnComplete m);
    cbn; repeat match goal with |- context [if ?b then _ else _] => destruct b end;
    cbn; auto.
Qed.

Lemma onmessage_interrupted_frame m s :
  transcription (fst (onmessage_interrupted m s)) = transcription s
  /\ currentInputRef (fst (onmessage_interrupted m s)) = currentInputRef s
  /\ currentOutputRef (fst (onmessage_interrupted m s)) = currentOutputRef s
  /\ isTranslatingIdx (fst (onmessage_interrupted m s)) = isTranslatingIdx s.
Proof.
  unfold onmessage_interrupted. destruct (interrupted m); cbn; auto.
Qed.

Lemma onmessage_unfold ctx source m s s1 e1 :
  onmessage_audio ctx source m s = Completed s1 e1 ->
  onmessage ctx source m s
  = Completed (fst (onmessage_interrupted m (onmessage_transcript m s1)))
      (e1 ++ snd (onmessage_interrupted m (onmessage_transcript m s1))).
Proof.
  intros H. unfold onmessage. rewrite H.
  destruct (onmessage_interrupted m (onmessage_transcript m s1)); reflexivity.
Qed.

(** One delivery that plays, with no interruption: the buffer starts at the
    later of cursor and clock, and the cursor moves to its end. *)
Lemma onmessage_plays ctx source m s :
  plays (ctx, source, m) = true ->
  interrupted m = false ->
  exists s' b,
    fragment_buffer m = Some b
    /\ onmessage ctx source m s
       = Completed s'
           [SourceStart source (Qmax (nextStartTimeRef s) (currentTime ctx)) b]
    /\ nextStartTimeRef s'
       = Qmax (nextStartTimeRef s) (currentTime ctx) + fragment_duration m.
Proof.
  intros Hp Hi.
  destruct (onmessage_audio_plays ctx source m s Hp) as (b & Hb & s1 & Ha & Hc & _).
  rewrite (onmessage_unfold _ _ _ _ _ _ Ha).
  unfold onmessage_interrupted. rewrite Hi. cbn [fst snd].
  eexists _, b. split; [exact Hb|]. split.
  - rewrite app_nil_r. reflexivity.
  - destruct (onmessage_transcript_frame m s1) as (-> & _).
    rewrite Hc. unfold fragment_duration. now rewrite Hb.
Qed.

(** A run of deliveries that all play, with no interruption, follows the
    playback clock of the data model. *)
Lemma deliver_follows_clock ms :
  forall s,
    Forall (fun d => plays d = true) ms ->
    Forall (fun d : Delivery => interrupted (snd d) = false) ms ->
    scheduled (snd (deliver ms s)) = clock_schedule (nextStartTimeRef s) (arrivals ms)
    /\ nextStartTimeRef (fst (deliver ms s))
       = clock_cursor (nextStartTimeRef s) (arrivals ms).
Proof.
  induction ms as [|[[ctx source] m] ms IH]; intros s Hp Hi.
  - split; reflexivity.
  - inversion Hp as [|? ? Hp1 Hp']; subst. inversion Hi as [|? ? Hi1 Hi']; subst.
    destruct (onmessage_plays ctx source m s Hp1 Hi1) as (s1 & b & Hb & Ho & Hc).
    cbn [deliver]. rewrite Ho. cbn [outcome_state outcome_effects].
    destruct (IH s1 Hp' Hi') as [IH1 IH2].
    destruct (deliver ms s1) as [s2 e2]. cbn [fst snd] in *.
    cbn [app scheduled arrivals map clock_schedule clock_cursor].
    rewrite <- Hc. rewrite IH1, IH2.
    unfold fragment_duration at 1. rewrite Hb. split; reflexivity.
Qed.

End MessageHandler.

(** ** Playback, interruption and turn completion *)

Section LiveSession.

Import LiveChat.

(** C1 (amended). For every sequence of audio fragments that play, with no
    interruption event, buffer i starts at the later of the cursor left by
    buffer i-1 and the output clock at its arrival, and the cursor moves to
    its end.  The start times never decrease, no two buffers overlap, and
    the final cursor is at least the initial cursor plus the sum of the
    durations.  When no fragment arrives with the clock past the cursor, the
    i-th start is the initial cursor plus the sum of the first i-1 durations
    and the final cursor is the initial cursor plus the sum of all of them. *)
Theorem playback_follows_clock (ms : list Delivery) (s : State) :
  Forall (fun d => plays d = true) ms ->
  Forall (fun d : Delivery => interrupted (snd d) = false) ms ->
  let out := deliver ms s in
  let sched := scheduled (snd out) in
  let c0 := nextStartTimeRef s in
  let ds := map snd (arrivals ms) in
  sched = clock_schedule c0 (arrivals ms)
  /\ map snd sched = ds
  /\ non_overlapping sched
  /\ non_decreasing (map fst sched)
  /\ c0 + total ds <= nextStartTimeRef (fst out)
  /\ (Forall2 Qle (map fst (arrivals ms)) (prefix_sums c0 ds) ->
      Forall2 Qeq (map fst sched) (prefix_sums c0 ds)
      /\ nextStartTimeRef (fst out) == c0 + total ds).
Proof.
  intros Hp Hi out sched c0 ds.
  destruct (deliver_follows_clock ms s Hp Hi) as [Hs Hc].
  fold out in Hs, Hc. fold sched in Hs. fold c0 in Hs, Hc.
  rewrite Hs, Hc. split; [reflexivity|].
  split; [apply clock_schedule_durations|].
  split; [apply clock_schedule_non_overlapping|].
  split.
  { apply clock_schedule_non_decreasing.
    unfold arrivals. apply Forall_map, Forall_forall.
    intros [[ctx source] m] _. apply fragment_duration_nonneg. }
  split; [apply clock_cursor_at_least_total|].
  intros Hno. apply clock_schedule_without_underrun; [reflexivity|exact Hno].
Qed.

Lemma playback_follows_clock_witness :
  nextStartTimeRef (fst (deliver two_fragments initial)) == (1 # 24000) + (2 # 24000).
Proof.
  assert (Hp : Forall (fun d => plays d = true) two_fragments)
    by (repeat constructor).
  assert (Hi : Forall (fun d : Delivery => interrupted (snd d) = false) two_fragments)
    by (repeat constructor).
  destruct (playback_follows_clock two_fragments initial Hp Hi)
    as (_ & _ & _ & _ & _ & H).
  destruct H as [_ H].
  - repeat constructor; vm_compute; discriminate.
  - rewrite H. vm_compute. reflexivity.
Defined.

(** C1 as stated fails: one fragment of one frame arriving when the output
    clock reads 5 seconds is scheduled at 5, not at 0, and leaves the cursor
    at 5 + 1/24000, not at 1/24000. *)
Lemma late_fragment_is_scheduled_at_the_clock :
  let ms : list Delivery :=
    [(mkAudioContext running 5, 1%nat,
      mkLiveServerMessage (Some "AAA=") None None false false)] in
  let out := deliver ms initial in
  Forall (fun d => plays d = true) ms
  /\ map snd (scheduled (snd out)) = [1 # 24000]
  /\ ~ nextStartTimeRef (fst out) == total (map snd (scheduled (snd out)))
  /\ ~ Forall2 Qeq (map fst (scheduled (snd out)))
                   (prefix_sums 0 (map snd (scheduled (snd out)))).
Proof.
  cbv zeta. split; [repeat constructor|].
  split; [vm_compute; reflexivity|].
  split.
  - vm_compute. discriminate.
  - intros H. vm_compute in H. inversion H as [|? ? ? ? Hq _]; subst.
    vm_compute in Hq. discriminate.
Qed.

(** A message the first line reads is handled as [onmessage] handles what
    was read of it. *)
Lemma raises_no_exception_read ctx w :
  raises_no_exception ctx w = true ->
  exists m,
    read w = Some m
    /\ audio_completes ctx m = true
    /\ inputTranscription m = wire_inputTranscription w
    /\ outputTranscription m = wire_outputTranscription w
    /\ turnComplete m = wire_turnComplete w
    /\ interrupted m = wire_interrupted w.
Proof.
  unfold raises_no_exception, read.
  destruct (read_base64Audio w) as [a|]; [|discriminate].
  intros H. eexists. split; [reflexivity|]. cbn. auto.
Qed.

(** When the audio part throws, the handler stops there: only the cursor
    may have moved, to the later of itself and the output clock. *)
Lemma onmessage_audio_throws ctx source m s :
  audio_completes ctx m = false ->
  onmessage ctx source m s
  = Rejected
      (set_nextStartTimeRef (Qmax (nextStartTimeRef s) (currentTime ctx)) s) [].
Proof.
  unfold audio_completes, fragment_buffer, onmessage, onmessage_audio.
  destruct (inlineData m) as [a|]; [|discriminate].
  destruct (truthy_string a); cbn [negb orb andb]; [|discriminate].
  destruct (is_closed ctx); cbn [negb orb andb]; [discriminate|].
  destruct (decode a) as [bytes|]; [|reflexivity].
  destruct (decodeAudioData bytes 24000 1); [discriminate|reflexivity].
Qed.

(** A message on which the handler throws is dropped whole. *)
Lemma onmessage_wire_throws ctx source w s :
  raises_no_exception ctx w = false ->
  exists s',
    onmessage_wire ctx source w s = Rejected s' []
    /\ transcription s' = transcription s
    /\ currentInputRef s' = currentInputRef s
    /\ currentOutputRef s' = currentOutputRef s
    /\ sourcesRef s' = sourcesRef s
    /\ nextStartTimeRef s <= nextStartTimeRef s'.
Proof.
  unfold raises_no_exception, onmessage_wire.
  destruct (read w) as [m|].
  - intros H. rewrite (onmessage_audio_throws ctx source m s H).
    eexists. split; [reflexivity|]. cbn. repeat split; try reflexivity.
    apply Q.le_max_l.
  - intros _. exists s. repeat split; try reflexivity. apply Qle_refl.
Qed.




Lemma truthy_string_eqb (t : string) : truthy_string t = negb (t =? "")%string.
Proof. destruct t; reflexivity. Qed.

Lemma append_empty_r (t : string) : (t ++ "")%string = t.
Proof. induction t as [|c t IH]; simpl; [reflexivity|]. now rewrite IH. Qed.

(** The transcript part, written with [fragment]. *)
Lemma onmessage_transcript_turn_complete m s :
  turnComplete m = true ->
  let input := (currentInputRef s ++ fragment (inputTranscription m))%string in
  let output := (currentOutputRef s ++ fragment (outputTranscription m))%string in
  transcription (onmessage_transcript m s) = transcription s ++ committed input output
  /\ currentInputRef (onmessage_transcript m s) = ""
  /\ currentOutputRef (onmessage_transcript m s) = "".
Proof.
  intros Ht. unfold onmessage_transcript, committed, fragment. rewrite Ht.
  destruct (inputTranscription m) as [ti|], (outputTranscription m) as [to|];
    cbn; rewrite ?append_empty_r, !truthy_string_eqb;
    repeat match goal with
           | |- context [(?x =? "")%string] => destruct (x =? "")%string
           end;
    cbn; rewrite ?app_nil_r; auto.
Qed.




End LiveSession.

(** ** Session termination *)

(** [stopSession] branches on the size of the transcript and on four cells;
    each combination is settled by evaluation. *)
Ltac stop_cases tr sp ci co af :=
  destruct (1 <? List.length tr)%nat, sp, ci, co, af as [[|?|?]|];
  vm_compute.

Section Termination.

Import LiveChat.

(** Whatever render it comes from, [stopSession] tears the session down and
    keeps the transcript. *)
Lemma stopSession_closure_tears_down seen lang newId now s :
  torn_down (fst (stopSession_closure seen lang newId now s))
  /\ transcription (fst (stopSession_closure seen lang newId now s))
     = transcription s.
Proof.
  destruct s as [? ? tr ? ? ? ? ? ? sp ci co ? ? ? af].
  unfold stopSession_closure, torn_down.
  stop_cases seen sp ci co af; repeat split; auto.
Qed.

(** On a torn-down session it issues no effect and can only add a
    snapshot of the transcript it sees. *)
Lemma stopSession_closure_on_torn_down seen lang newId now s :
  torn_down s ->
  stopSession_closure seen lang newId now s
  = (if (1 <? List.length seen)%nat
     then set_pastSessions (mkChatSessionLog newId now seen lang :: pastSessions s) s
     else s,
     []).
Proof.
  destruct s as [? ? tr ? ? ? ? ? ? sp ci co ? src ? af].
  unfold torn_down;
    cbn [isActive isConnecting sessionPromiseRef audioContextInRef
         audioContextOutRef sourcesRef animationFrameRef analyzerRef audioLevel].
  intros (-> & -> & -> & -> & -> & -> & Haf & -> & ->).
  unfold stopSession_closure. cbn [pastSessions].
  destruct (1 <? List.length seen)%nat, Haf as [-> | ->];
    vm_compute; reflexivity.
Qed.

(** One [stopSession] tears the session down and keeps the transcript. *)
Lemma stopSession_tears_down lang newId now s :
  torn_down (fst (stopSession lang newId now s))
  /\ transcription (fst (stopSession lang newId now s)) = transcription s.
Proof. apply stopSession_closure_tears_down. Qed.

(** On a torn-down session, [stopSession] issues no effect and can only add
    a snapshot. *)
Lemma stopSession_on_torn_down lang newId now s :
  torn_down s ->
  stopSession lang newId now s
  = (if (1 <? List.length (transcription s))%nat
     then set_pastSessions
            (mkChatSessionLog newId now (transcription s) lang :: pastSessions s) s
     else s,
     []).
Proof. apply stopSession_closure_on_torn_down. Qed.

(** X12. A second [stopSession] issues no effect: there is nothing left to
    close, stop or cancel. *)
Lemma stopSession_again_is_silent lang newId now lang' newId' now' s :
  snd (stopSession lang' newId' now' (fst (stopSession lang newId now s))) = [].
Proof.
  destruct (stopSession_tears_down lang newId now s) as [Hdown _].
  now rewrite (stopSession_on_torn_down _ _ _ _ Hdown).
Qed.

(** X13. With at most one message in the transcript, a second
    [stopSession] changes nothing at all. *)
Lemma stopSession_idempotent_without_snapshot lang newId now lang' newId' now' s :
  (List.length (transcription s) <= 1)%nat ->
  stopSession lang' newId' now' (fst (stopSession lang newId now s))
  = (fst (stopSession lang newId now s), []).
Proof.
  intros Hlen.
  destruct (stopSession_tears_down lang newId now s) as [Hdown Htr].
  rewrite (stopSession_on_torn_down _ _ _ _ Hdown), Htr.
  apply Nat.ltb_ge in Hlen. now rewrite Hlen.
Qed.

(** The start button is shown with an empty transcript only: that is the
    transcript the [stopSession] of the channel callbacks sees. *)
Lemma start_button_shown_empty s :
  start_button_shown s = true -> transcription s = [].
Proof.
  unfold start_button_shown.
  destruct (transcription s); [reflexivity|discriminate].
Qed.

(** C4. From every session state, and whichever [stopSession] ran first
    (that of the stop button, which sees the transcript as it is, or that of
    a channel callback), a second [stopSession] changes nothing and issues
    no effect: the state after two calls is the state after one.  After the
    first call the stop button is no longer rendered, so the second call
    comes from [onclose], [onerror] or the [catch] of [startSession]; their
    [stopSession] is that of the render the session was started from, which
    the start button shows with an empty transcript only, so it records
    nothing; and the first call left nothing to close, stop or cancel. *)
Theorem stopSession_second_call_changes_nothing (started_from s : State)
    (transcription_seen : list Message) (lang lang' : Language)
    (newId newId' : string) (now now' : Z) :
  start_button_shown started_from = true ->
  let once := stopSession_closure transcription_seen lang newId now s in
  let twice :=
    stopSession_closure (transcription started_from) lang' newId' now' (fst once) in
  stop_button_shown (fst once) = false
  /\ twice = (fst once, [])
  /\ pastSessions (fst twice) = pastSessions (fst once)
  /\ snd twice = [].
Proof.
  intros Hstart once twice.
  destruct (stopSession_closure_tears_down transcription_seen lang newId now s)
    as [Hdown _].
  fold once in Hdown.
  assert (Htwice : twice = (fst once, [])).
  { subst twice. rewrite (start_button_shown_empty _ Hstart).
    now rewrite (stopSession_closure_on_torn_down _ _ _ _ _ Hdown). }
  split.
  - destruct Hdown as (Ha & Hc & _). unfold stop_button_shown.
    now rewrite Ha, Hc.
  - rewrite Htwice. auto.
Qed.

Lemma stopSession_second_call_changes_nothing_witness :
  let once := stopSession Ingles "k3x9q0a7z" 1700000000000 conversation in
  let twice :=
    stopSession_closure (transcription initial) Ingles "m2c8v1b5n" 1700000000001
      (fst once) in
  stop_button_shown (fst once) = false
  /\ twice = (fst once, [])
  /\ pastSessions (fst twice) = pastSessions (fst once)
  /\ snd twice = [].
Proof.
  apply (stopSession_second_call_changes_nothing initial conversation
           (transcription conversation) Ingles Ingles
           "k3x9q0a7z" "m2c8v1b5n" 1700000000000 1700000000001).
  reflexivity.
Defined.

End Termination.

(** ** Translation requests *)

Section Translation.

Import Gemini LiveChat.

Lemma set_isTranslatingIdx_back s :
  isTranslatingIdx s = None ->
  set_isTranslatingIdx None (set_isTranslatingIdx (Some 0%nat) s) = s.
Proof. destruct s; cbn. intros ->. reflexivity. Qed.

(** While the marker is set, [translateMessage] does nothing. *)
Lemma translateMessage_blocked env idx s pending :
  isTranslatingIdx s = Some pending ->
  translateMessage env idx s = (s, []).
Proof.
  intros H. unfold translateMessage.
  destruct (nth_error (transcription s) idx) as [msg|]; [|reflexivity].
  rewrite H. now rewrite !orb_true_r.
Qed.

(** One call sends at most one request; it sends one exactly when it leaves
    the marker on its index, and otherwise leaves the marker as it was. *)
Lemma translateMessage_marker env idx s :
  let '(s', e) := translateMessage env idx s in
  (requests e = 1%nat /\ isTranslatingIdx s = None /\ isTranslatingIdx s' = Some idx)
  \/ (requests e = 0%nat /\ isTranslatingIdx s' = isTranslatingIdx s).
Proof.
  unfold translateMessage.
  destruct (nth_error (transcription s) idx) as [msg|]; [|right; split; reflexivity].
  destruct (role msg); cbn [orb]; [right; split; reflexivity|].
  destruct (truthy_opt (translation msg)); cbn [orb]; [right; split; reflexivity|].
  destruct (isTranslatingIdx s) eqn:Hm; [right; split; [reflexivity|exact Hm]|].
  destruct (getGeminiKey env).
  - left. cbn. auto.
  - right. cbn. auto.
Qed.

Lemma translateMessage_resume_marker idx r s :
  isTranslatingIdx (translateMessage_resume idx r s) = None.
Proof.
  unfold translateMessage_resume.
  destruct r as [[t|]|]; [destruct (truthy_string t)| |]; reflexivity.
Qed.

Lemma stopSession_closure_marker seen lang newId now s :
  isTranslatingIdx (fst (stopSession_closure seen lang newId now s))
  = isTranslatingIdx s.
Proof.
  destruct s as [? ? tr ? ? ? ? ? ? sp ci co ? ? ? af].
  unfold stopSession_closure.
  stop_cases seen sp ci co af; reflexivity.
Qed.

Lemma stopSession_marker lang newId now s :
  isTranslatingIdx (fst (stopSession lang newId now s)) = isTranslatingIdx s.
Proof.
  apply stopSession_closure_marker.
Qed.

Lemma onmessage_marker ctx source m s :
  isTranslatingIdx (outcome_state (onmessage ctx source m s)) = isTranslatingIdx s.
Proof.
  pose proof (onmessage_audio_frame ctx source m s) as (_ & _ & _ & Ha).
  unfold onmessage.
  destruct (onmessage_audio ctx source m s) as [s1 e1|s1 e1]; cbn in *; [|exact Ha].
  pose proof (onmessage_interrupted_frame m (onmessage_transcript m s1))
    as (_ & _ & _ & Hi).
  destruct (onmessage_interrupted m (onmessage_transcript m s1)) as [s2 e2].
  cbn in *. rewrite Hi.
  destruct (onmessage_transcript_frame m s1) as (_ & _ & ->). exact Ha.
Qed.

(** Every event keeps marker and requests in flight in agreement. *)
Lemma handle_consistent w ev w' :
  consistent w -> handle w ev = Some w' -> consistent w'.
Proof.
  unfold consistent. intros Hw.
  destruct ev as [lang|ctx source m|source|lang newId now|env idx|r
                  |seen lang newId now];
    unfold handle.
  - intros H; inversion H; subst; cbn [component in_flight]. exact Hw.
  - intros H; inversion H; subst; cbn [component in_flight].
    now rewrite onmessage_marker.
  - intros H; inversion H; subst; cbn [component in_flight]. exact Hw.
  - intros H; inversion H; subst; cbn [component in_flight].
    now rewrite stopSession_marker.
  - pose proof (translateMessage_marker env idx (component w)) as Hm.
    destruct (translateMessage env idx (component w)) as [s e].
    intros H; inversion H; subst; cbn [component in_flight].
    destruct Hm as [(-> & Hnone & ->)|(-> & ->)].
    + rewrite Hw, Hnone. reflexivity.
    + cbn [repeat]. now rewrite app_nil_r.
  - destruct (in_flight w) as [|idx rest] eqn:Hf; [discriminate|].
    intros H; inversion H; subst; cbn [component in_flight].
    rewrite translateMessage_resume_marker.
    destruct (isTranslatingIdx (component w)); inversion Hw; reflexivity.
  - intros H; inversion H; subst; cbn [component in_flight].
    now rewrite stopSession_closure_marker.
Qed.

Lemma run_consistent evs :
  forall w w', consistent w -> run w evs = Some w' -> consistent w'.
Proof.
  induction evs as [|ev evs IH]; intros w w' Hw; cbn.
  - intros H; inversion H; subst; exact Hw.
  - destruct (handle w ev) as [w1|] eqn:H1; [|discriminate].
    apply IH. exact (handle_consistent _ _ _ Hw H1).
Qed.

(** C6. When a call of [translateMessage] on an index has sent its request,
    a second call on the same index before the answer changes nothing and
    sends nothing, so the two calls send exactly one request; and however
    the events of the screen interleave, at most one translation request is
    in flight. *)
Theorem translateMessage_single_flight :
  (forall env env' idx s,
      let first := translateMessage env idx s in
      let second := translateMessage env' idx (fst first) in
      requests (snd first) = 1%nat ->
      second = (fst first, [])
      /\ requests (snd first ++ snd second) = 1%nat)
  /\ (forall w evs w',
        consistent w -> run w evs = Some w' ->
        (List.length (in_flight w') <= 1)%nat).
Proof.
  split.
  - intros env env' idx s first second Hreq.
    pose proof (translateMessage_marker env idx s) as Hm.
    subst second. subst first.
    destruct (translateMessage env idx s) as [s1 e1]. cbn [fst snd] in *.
    destruct Hm as [(_ & _ & Hs1)|(H0 & _)]; [|congruence].
    rewrite (translateMessage_blocked env' idx s1 idx Hs1).
    split; [reflexivity|]. cbn [snd]. now rewrite app_nil_r.
  - intros w evs w' Hw Hrun.
    pose proof (run_consistent evs w w' Hw Hrun) as Hc.
    unfold consistent in Hc. rewrite Hc.
    destruct (isTranslatingIdx (component w')); cbn; lia.
Qed.

End Translation.

Lemma translateMessage_single_flight_witness :
  LiveChat.translateMessage Gemini.stored_key 0
    (fst (LiveChat.translateMessage Gemini.stored_key 0 LiveChat.greeted))
  = (fst (LiveChat.translateMessage Gemini.stored_key 0 LiveChat.greeted), [])
  /\ exists w',
      LiveChat.run (LiveChat.mkWorld LiveChat.greeted []) LiveChat.three_clicks
      = Some w'
      /\ (List.length (LiveChat.in_flight w') <= 1)%nat.
Proof.
  split.
  - apply (proj1 translateMessage_single_flight
             Gemini.stored_key Gemini.stored_key 0%nat LiveChat.greeted).
    reflexivity.
  - destruct (LiveChat.run (LiveChat.mkWorld LiveChat.greeted [])
                LiveChat.three_clicks) as [w'|] eqn:Hrun;
      [|vm_compute in Hrun; discriminate].
    exists w'. split; [reflexivity|].
    apply (proj2 translateMessage_single_flight
             (LiveChat.mkWorld LiveChat.greeted []) LiveChat.three_clicks w').
    + reflexivity.
    + exact Hrun.
Defined.

(** ** Actions without a credential *)

Section MissingCredential.

Import Gemini.

(** X18. The culture fetch without a key: no request, not loading, message
    set. *)
Lemma fetchCultureData_without_key env onAction language query s :
  getGeminiKey env = None ->
  let s' := fst (CultureHub.fetchCultureData env onAction language query s) in
  let e := snd (CultureHub.fetchCultureData env onAction language query s) in
  Forall (fun x => x = CultureHub.OnAction) e
  /\ CultureHub.isLoading s' = false
  /\ CultureHub.error s' = Some KEY_MISSING_MESSAGE.
Proof.
  intros H. unfold CultureHub.fetchCultureData. rewrite H. cbn.
  destruct onAction; repeat constructor.
Qed.

(** X19. The visual scan without a key: no request, not scanning, message
    shown. *)
Lemma scanImage_without_key env onAction language img s :
  getGeminiKey env = None ->
  let s' := fst (VisualScan.scanImage env onAction language img s) in
  let e := snd (VisualScan.scanImage env onAction language img s) in
  e = (if onAction then [VisualScan.OnAction] else [])
        ++ [VisualScan.Alert KEY_MISSING_MESSAGE]
  /\ VisualScan.isScanning s' = false.
Proof.
  intros H. unfold VisualScan.scanImage. rewrite H. cbn. auto.
Qed.

(** X17. The session start without a key: no microphone request, not
    connecting, message shown. *)
Lemma startSession_without_key env onAction s :
  getGeminiKey env = None ->
  LiveChat.isActive s = false -> LiveChat.isConnecting s = false ->
  let s' := fst (LiveChat.startSession env onAction s) in
  let e := snd (LiveChat.startSession env onAction s) in
  e = (if onAction then [LiveChat.OnAction] else [])
        ++ [LiveChat.Alert KEY_MISSING_MESSAGE]
  /\ LiveChat.isConnecting s' = false.
Proof.
  intros H Ha Hc. unfold LiveChat.startSession. rewrite H, Ha, Hc. cbn. auto.
Qed.

(** The two translations without a key: no request and not loading, but
    nothing is shown either. *)
Lemma translateMessage_without_key env idx s :
  getGeminiKey env = None ->
  LiveChat.translateMessage env idx s = (s, []).
Proof.
  intros H. unfold LiveChat.translateMessage. rewrite H.
  destruct (nth_error (LiveChat.transcription s) idx) as [msg|]; [|reflexivity].
  destruct (LiveChat.role msg); cbn [orb]; [reflexivity|].
  destruct (truthy_opt (LiveChat.translation msg)); cbn [orb]; [reflexivity|].
  destruct (LiveChat.isTranslatingIdx s) eqn:Hm; [reflexivity|].
  destruct s; cbn in *. now subst.
Qed.

Lemma translateResult_without_key env s :
  getGeminiKey env = None ->
  VisualScan.isTranslating s = false ->
  VisualScan.translateResult env s = (s, []).
Proof.
  intros H Ht. unfold VisualScan.translateResult. rewrite H, Ht.
  destruct (VisualScan.result s) as [analysis|] eqn:Hr; [|reflexivity].
  destruct (truthy_string analysis); cbn [negb orb]; [|reflexivity].
  destruct s; cbn in *. now subst.
Qed.

(** C5, on the code. With nothing configured ([getGeminiKey] returns
    [null]): translating a tutor message and translating an analysis send
    nothing and stay idle, but show no message; playing an expression does
    not ask [getGeminiKey], hands the missing key to the SDK, and shows no
    message whether the SDK takes it or not. *)
Theorem missing_key_is_not_reported_everywhere (sdk_accepts : option string -> bool) :
  getGeminiKey no_key = None
  /\ nth_error (LiveChat.transcription LiveChat.greeted) 0
     = Some (LiveChat.mkMessage LiveChat.tutor (LiveChat.GREETINGS Ingles) None)
  /\ LiveChat.translateMessage no_key 0 LiveChat.greeted = (LiveChat.greeted, [])
  /\ VisualScan.translateResult no_key VisualScan.analysed = (VisualScan.analysed, [])
  /\ snd (CultureHub.playExpression sdk_accepts no_key Ingles "Break a leg" 0
            CultureHub.idle)
     = (if sdk_accepts None
        then [CultureHub.GenerateContent None "gemini-2.5-flash-preview-tts"
                (CultureHub.Say Ingles "Break a leg")]
        else [])
  /\ CultureHub.error
       (fst (CultureHub.playExpression sdk_accepts no_key Ingles "Break a leg" 0
               CultureHub.idle))
     = None.
Proof.
  repeat split; try reflexivity.
  - unfold CultureHub.playExpression; cbn. destruct (sdk_accepts None); reflexivity.
  - unfold CultureHub.playExpression; cbn. destruct (sdk_accepts None); reflexivity.
Qed.

End MissingCredential.

(** ** Capture blocks *)

Section Capture.

Import LiveChat.

Local Ltac Zify.zify_post_hook ::= Z.to_euclidean_division_equations.

Lemma map_nth_seq {A B} (f : A -> B) (d : A) (l : list A) :
  map (fun i => f (nth i l d)) (seq 0 (List.length l)) = map f l.
Proof.
  induction l as [|x l IH]; simpl; [reflexivity|].
  f_equal. rewrite <- seq_shift, map_map. exact IH.
Qed.

(** The loop of [createBlob] converts the samples one by one. *)
Lemma createBlob_elementwise samples :
  createBlob samples
  = mkBlob (encode (Uint8Array_of_Int16Array
                      (map (fun x => ToInt16 (x * 32768)) samples)))
           "audio/pcm;rate=16000".
Proof.
  unfold createBlob.
  rewrite (for_range_set_index (fun i => ToInt16 (nth i samples 0 * 32768))).
  now rewrite (map_nth_seq (fun x => ToInt16 (x * 32768))).
Qed.

(** Below full scale the conversion is the truncation of [x * 32768], a
    signed 16-bit value. *)
Lemma ToInt16_below_full_scale (x : Q) :
  -1 <= x -> x < 1 ->
  ToInt16 (x * 32768) = Z.quot (Qnum x * 32768) (Zpos (Qden x))
  /\ (-32768 <= ToInt16 (x * 32768) <= 32767)%Z.
Proof.
  destruct x as [n d]. unfold Qle, Qlt, ToInt16. cbn [Qnum Qden Qmult].
  rewrite Pos.mul_1_r. intros Hlo Hhi.
  assert (Hq : (-32768 <= Z.quot (n * 32768) (Zpos d) <= 32767)%Z).
  { split.
    - replace (-32768)%Z with (Z.quot (-32768 * Zpos d) (Zpos d))
        by (apply Z.quot_mul; lia).
      apply Z.quot_le_mono; lia.
    - destruct (Z.le_gt_cases 0 (n * 32768)) as [Hpos|Hneg].
      + assert (Z.quot (n * 32768) (Zpos d) < 32768)%Z; [|lia].
        apply Z.quot_lt_upper_bound; lia.
      + assert (Z.quot (n * 32768) (Zpos d) <= Z.quot 0 (Zpos d))%Z
          by (apply Z.quot_le_mono; lia).
        rewrite Z.quot_0_l in *; lia. }
  generalize dependent (Z.quot (n * 32768) (Zpos d)). intros q Hq.
  rewrite Z.geb_leb.
  destruct (Z.leb_spec 32768 (q mod 65536)); lia.
Qed.

(** C8, on the code. The sample 1.0 is scaled to 32768, which [Int16Array]
    stores as -32768: the block holding 1.0 is sent as the bytes 00 80, and
    these bytes decode to the sample -1.0. *)
Theorem createBlob_full_scale_wraps :
  ToInt16 (1 * 32768) = (-32768)%Z
  /\ createBlob [1] = mkBlob "AIA=" "audio/pcm;rate=16000"
  /\ decode "AIA=" = Some [Byte.x00; Byte.x80]
  /\ option_map channelData (decodeAudioData [Byte.x00; Byte.x80] 24000 1)
     = Some [[-32768 # 32768]].
Proof.
  repeat split; vm_compute; reflexivity.
Qed.

End Capture.

(** * Further properties of the code *)

(** ** PCM blocks: from [createBlob] to [decodeAudioData] *)

Section Pcm.

Import LiveChat.

Local Ltac Zify.zify_post_hook ::= Z.to_euclidean_division_equations.

(** Induction two elements at a time, the way bytes pair into samples. *)
Lemma list_ind2 {A} (P : list A -> Prop) :
  P [] -> (forall a, P [a]) -> (forall a b r, P r -> P (a :: b :: r)) ->
  forall l, P l.
Proof.
  intros H0 H1 H2.
  fix IH 1. intros [|a [|b r]].
  - exact H0.
  - apply H1.
  - apply H2, IH.
Qed.

Lemma to_N_byte_of_Z z : Z.of_N (Byte.to_N (byte_of_Z z)) = (z mod 256)%Z.
Proof.
  unfold byte_of_Z.
  pose proof (byte_of_ascii_via_N (ascii_of_N (Z.to_N (z mod 256)))) as H.
  symmetry in H. apply Byte.to_of_N in H. rewrite H.
  rewrite N_ascii_embedding by lia. lia.
Qed.

Lemma int16_of_bytes_of_Z v :
  int16 v -> int16_of_bytes (byte_of_Z v) (byte_of_Z (v / 256)) = v.
Proof.
  unfold int16, int16_of_bytes. intros Hv.
  rewrite !to_N_byte_of_Z.
  destruct (Z.ltb_spec (v mod 256 + 256 * ((v / 256) mod 256)) 32768); lia.
Qed.

(** Whatever is stored, an [Int16Array] slot holds a signed 16-bit value. *)
Lemma ToInt16_range x : int16 (ToInt16 x).
Proof.
  unfold int16, ToInt16.
  generalize (Z.quot (Qnum x) (Zpos (Qden x))). intros q.
  rewrite Z.geb_leb. destruct (Z.leb_spec 32768 (q mod 65536)); lia.
Qed.

Lemma Int16Array_of_its_bytes_in_range (l : list Z) :
  Forall int16 l ->
  Int16Array_of_buffer (Uint8Array_of_Int16Array l) = Some l.
Proof.
  induction 1 as [|v l Hv _ IH]; [reflexivity|].
  unfold Uint8Array_of_Int16Array in *. cbn [flat_map app Int16Array_of_buffer].
  rewrite IH, (int16_of_bytes_of_Z v Hv). reflexivity.
Qed.

Lemma Int16Array_of_buffer_length data l :
  Int16Array_of_buffer data = Some l ->
  List.length data = (2 * List.length l)%nat.
Proof.
  revert l. induction data as [|lo|lo hi r IH] using list_ind2; intros l.
  - intros H; inversion H; reflexivity.
  - discriminate.
  - cbn [Int16Array_of_buffer].
    destruct (Int16Array_of_buffer r) as [l'|]; [|discriminate].
    intros H; inversion H; subst. cbn [List.length]. rewrite (IH l' eq_refl). lia.
Qed.

(** X1. The byte view [createBlob] takes of an [Int16Array] and the
    [Int16Array] view [decodeAudioData] takes of the bytes are inverse:
    every array of signed 16-bit values is read back from its bytes, two
    bytes per value. *)
Theorem Int16Array_of_its_bytes (l : list Z) :
  Forall int16 l ->
  Int16Array_of_buffer (Uint8Array_of_Int16Array l) = Some l
  /\ List.length (Uint8Array_of_Int16Array l) = (2 * List.length l)%nat.
Proof.
  intros H. pose proof (Int16Array_of_its_bytes_in_range l H) as Hview.
  split; [exact Hview|]. exact (Int16Array_of_buffer_length _ _ Hview).
Qed.

Lemma Int16Array_of_its_bytes_witness :
  Int16Array_of_buffer (Uint8Array_of_Int16Array [-32768; -1; 0; 255; 32767]%Z)
  = Some [-32768; -1; 0; 255; 32767]%Z.
Proof.
  apply (Int16Array_of_its_bytes [-32768; -1; 0; 255; 32767]%Z).
  repeat constructor; unfold int16; lia.
Defined.

Lemma Int16Array_of_buffer_None data :
  Int16Array_of_buffer data = None <-> Nat.odd (List.length data) = true.
Proof.
  induction data as [|lo|lo hi r IH] using list_ind2.
  - split; discriminate.
  - split; reflexivity.
  - cbn [Int16Array_of_buffer List.length].
    change (Nat.odd (S (S (List.length r)))) with (Nat.odd (List.length r)).
    rewrite <- IH.
    destruct (Int16Array_of_buffer r); split; intros; congruence.
Qed.

Lemma Int16Array_of_buffer_range data l :
  Int16Array_of_buffer data = Some l -> Forall int16 l.
Proof.
  revert l. induction data as [|lo|lo hi r IH] using list_ind2; intros l.
  - intros H; inversion H; constructor.
  - discriminate.
  - cbn [Int16Array_of_buffer].
    destruct (Int16Array_of_buffer r) as [l'|]; [|discriminate].
    intros H; inversion H; subst. constructor; [|now apply IH].
    unfold int16, int16_of_bytes.
    pose proof (Byte.to_N_bounded lo). pose proof (Byte.to_N_bounded hi).
    destruct (Z.ltb_spec (Z.of_N (Byte.to_N lo) + 256 * Z.of_N (Byte.to_N hi)) 32768);
      lia.
Qed.

Lemma mono_channel {B} (f : Z -> B) (l : list Z) :
  map (fun i => f (nth (i * 1 + 0) l 0%Z)) (seq 0 (List.length l)) = map f l.
Proof.
  rewrite <- (map_nth_seq f 0%Z l). apply map_ext. intros i.
  now rewrite Nat.mul_1_r, Nat.add_0_r.
Qed.

(** A mono buffer is the samples of the [Int16Array], each over 32768. *)
Lemma decodeAudioData_mono data l rate :
  Int16Array_of_buffer data = Some l ->
  l <> [] ->
  decodeAudioData data rate 1
  = Some (mkAudioBuffer rate [map (fun v => v # 32768) l] (List.length l)).
Proof.
  intros Hl Hne. unfold decodeAudioData. rewrite Hl, Nat.div_1_r.
  destruct l as [|v l']; [congruence|].
  cbn [Nat.eqb orb List.length seq map].
  f_equal. f_equal. f_equal.
  exact (mono_channel (fun v => v # 32768) (v :: l')).
Qed.

Lemma decode_of_encode (b : list Byte.byte) : decode (encode b) = Some b.
Proof.
  unfold decode, encode.
  rewrite atob_btoa, for_range_set_index, get_charCodes, append_chars.
  cbn [String.append].
  rewrite list_ascii_of_string_of_list_ascii, map_map.
  rewrite (map_ext _ (fun x => x)) by (intros x; apply byte_of_ascii_of_byte).
  now rewrite map_id.
Qed.




(** X4. A buffer decoded on one channel has one frame per two bytes, a
    positive duration, and one channel whose samples all lie between -1 and
    32767/32768. *)
Theorem decodeAudioData_mono_buffer (bytes : list Byte.byte) (rate : positive)
    (b : AudioBuffer) :
  decodeAudioData bytes rate 1 = Some b ->
  List.length bytes = (2 * frames b)%nat
  /\ 0 < duration b
  /\ exists channel,
      channelData b = [channel]
      /\ List.length channel = frames b
      /\ Forall (fun v => -1 <= v <= 32767 # 32768) channel.
Proof.
  intros H.
  destruct (Int16Array_of_buffer bytes) as [l|] eqn:Hl.
  2:{ unfold decodeAudioData in H. rewrite Hl in H. discriminate. }
  destruct l as [|v l'].
  { unfold decodeAudioData in H. rewrite Hl in H. discriminate. }
  rewrite (decodeAudioData_mono _ _ rate Hl) in H by discriminate.
  remember (v :: l') as l eqn:El.
  assert (Hb : b = mkAudioBuffer rate [map (fun v => v # 32768) l] (List.length l))
    by congruence.
  subst b. cbn [frames channelData].
  split; [exact (Int16Array_of_buffer_length _ _ Hl)|].
  split; [subst l; unfold duration, Qlt; cbn; lia|].
  eexists. split; [reflexivity|].
  split; [now rewrite length_map|].
  apply Forall_map. eapply Forall_impl; [|exact (Int16Array_of_buffer_range _ _ Hl)].
  intros z Hz. unfold int16 in Hz. unfold Qle; cbn. lia.
Qed.

Lemma decodeAudioData_mono_buffer_witness :
  exists b,
    decodeAudioData [Byte.x00; Byte.x80; Byte.xff; Byte.x7f] 24000 1 = Some b
    /\ List.length [Byte.x00; Byte.x80; Byte.xff; Byte.x7f] = (2 * frames b)%nat
    /\ 0 < duration b.
Proof.
  eexists. split; [reflexivity|].
  pose proof (decodeAudioData_mono_buffer
                [Byte.x00; Byte.x80; Byte.xff; Byte.x7f] 24000 _ eq_refl) as H.
  split; [exact (proj1 H)|exact (proj1 (proj2 H))].
Defined.

(** X5. Below full scale, the value [createBlob] stores for a sample is
    the sample times 32768 cut towards zero: read back over 32768 it is off
    by less than one step of 1/32768 and never larger in magnitude than the
    sample. *)
Theorem createBlob_quantisation (x : Q) :
  -1 <= x -> x < 1 ->
  let v := ToInt16 (x * 32768) in
  (v # 32768) - (1 # 32768) < x
  /\ x < (v # 32768) + (1 # 32768)
  /\ (0 <= x -> 0 <= v # 32768 /\ v # 32768 <= x)
  /\ (x <= 0 -> x <= v # 32768 /\ v # 32768 <= 0).
Proof.
  intros Hlo Hhi v.
  destruct (ToInt16_below_full_scale x Hlo Hhi) as [Hv _].
  subst v. rewrite Hv. clear Hv Hlo Hhi.
  destruct x as [n d]. cbn [Qnum Qden].
  pose proof (Z.quot_rem' (n * 32768) (Zpos d)) as Hqr.
  assert (Hr : (Z.abs (Z.rem (n * 32768) (Zpos d)) < Zpos d)%Z).
  { pose proof (Z.rem_bound_abs (n * 32768) (Zpos d)) as H. lia. }
  assert (Hs : (0 <= n -> 0 <= Z.rem (n * 32768) (Zpos d))%Z)
    by (intros; apply Z.rem_nonneg; lia).
  assert (Hs' : (n <= 0 -> Z.rem (n * 32768) (Zpos d) <= 0)%Z)
    by (intros; apply Z.rem_nonpos; lia).
  set (q := Z.quot (n * 32768) (Zpos d)) in *.
  set (r := Z.rem (n * 32768) (Zpos d)) in *.
  clearbody q r.
  unfold Qlt, Qle, Qminus, Qplus, Qopp. cbn [Qnum Qden].
  repeat split; intros; nia.
Qed.

Lemma createBlob_quantisation_witness :
  (ToInt16 ((1 # 3) * 32768) # 32768) - (1 # 32768) < 1 # 3
  /\ 1 # 3 < (ToInt16 ((1 # 3) * 32768) # 32768) + (1 # 32768).
Proof.
  pose proof (createBlob_quantisation (1 # 3)) as H.
  destruct H as (H1 & H2 & _).
  - unfold Qle; cbn; lia.
  - unfold Qlt; cbn; lia.
  - split; [exact H1|exact H2].
Defined.

End Pcm.

(** ** The message handler over a session *)

Section Session.

Import LiveChat.

Lemma append_assoc (a b c : string) : ((a ++ b) ++ c = a ++ (b ++ c))%string.
Proof. induction a as [|x a IH]; simpl; [reflexivity|]. now rewrite IH. Qed.

Lemma deliver_app ms1 ms2 s :
  deliver (ms1 ++ ms2) s
  = (fst (deliver ms2 (fst (deliver ms1 s))),
     snd (deliver ms1 s) ++ snd (deliver ms2 (fst (deliver ms1 s)))).
Proof.
  revert s. induction ms1 as [|[[ctx source] m] ms1 IH]; intros s.
  - cbn. now destruct (deliver ms2 s).
  - cbn [app deliver]. rewrite IH.
    destruct (deliver ms1 (outcome_state (onmessage ctx source m s))) as [s1 e1].
    cbn [fst snd]. now rewrite app_assoc.
Qed.

(** A message without the turn-complete marker only appends its fragments to
    the buffers. *)
Lemma onmessage_transcript_accumulates m s :
  turnComplete m = false ->
  transcription (onmessage_transcript m s) = transcription s
  /\ currentInputRef (onmessage_transcript m s)
     = (currentInputRef s ++ fragment (inputTranscription m))%string
  /\ currentOutputRef (onmessage_transcript m s)
     = (currentOutputRef s ++ fragment (outputTranscription m))%string.
Proof.
  intros Ht. unfold onmessage_transcript, fragment. rewrite Ht.
  destruct (inputTranscription m), (outputTranscription m); cbn;
    rewrite ?append_empty_r; auto.
Qed.

Lemma onmessage_completes_transcript ctx source m s :
  audio_completes ctx m = true ->
  let s' := outcome_state (onmessage ctx source m s) in
  transcription s' = transcription (onmessage_transcript m s)
  /\ currentInputRef s' = currentInputRef (onmessage_transcript m s)
  /\ currentOutputRef s' = currentOutputRef (onmessage_transcript m s).
Proof.
  intros Hc.
  destruct (onmessage_audio_completes ctx source m s Hc) as (s1 & e1 & Ha & _).
  rewrite (onmessage_unfold _ _ _ _ _ _ Ha). cbn [outcome_state].
  pose proof (onmessage_audio_frame ctx source m s) as Hf.
  rewrite Ha in Hf. cbn [outcome_state] in Hf.
  destruct Hf as (Htr & Hci & Hco & _).
  destruct (onmessage_interrupted_frame m (onmessage_transcript m s1))
    as (-> & -> & -> & _).
  unfold onmessage_transcript.
  destruct (inputTranscription m), (outputTranscription m), (turnComplete m);
    cbn; rewrite ?Htr, ?Hci, ?Hco;
    repeat match goal with |- context [if ?b then _ else _] => destruct b end;
    cbn; rewrite ?Htr; auto.
Qed.

(** A message dropped at an exception of its audio part leaves the
    transcript and the buffers alone. *)
Lemma onmessage_unheard ctx source m s :
  audio_completes ctx m = false ->
  let s' := outcome_state (onmessage ctx source m s) in
  transcription s' = transcription s
  /\ currentInputRef s' = currentInputRef s
  /\ currentOutputRef s' = currentOutputRef s.
Proof.
  intros H. cbv zeta. rewrite (onmessage_audio_throws ctx source m s H).
  cbn. auto.
Qed.

Lemma deliver_accumulates ms :
  forall s,
    Forall (fun d : Delivery => heard d = true -> turnComplete (snd d) = false) ms ->
    transcription (fst (deliver ms s)) = transcription s
    /\ currentInputRef (fst (deliver ms s))
       = (currentInputRef s ++ input_fragments ms)%string
    /\ currentOutputRef (fst (deliver ms s))
       = (currentOutputRef s ++ output_fragments ms)%string.
Proof.
  induction ms as [|[[ctx source] m] ms IH]; intros s H.
  - cbn. now rewrite !append_empty_r.
  - inversion H as [|? ? Hd H']; subst.
    cbn [deliver input_fragments output_fragments fold_right].
    fold (input_fragments ms). fold (output_fragments ms).
    destruct (IH (outcome_state (onmessage ctx source m s)) H') as (I1 & I2 & I3).
    destruct (deliver ms (outcome_state (onmessage ctx source m s))) as [s2 e2].
    cbn [fst] in *. unfold heard in *. cbn [fst snd] in *.
    destruct (audio_completes ctx m) eqn:Hc.
    + destruct (onmessage_completes_transcript ctx source m s Hc) as (C1 & C2 & C3).
      destruct (onmessage_transcript_accumulates m s (Hd eq_refl)) as (A1 & A2 & A3).
      cbv zeta in C1, C2, C3.
      rewrite I1, I2, I3, C1, C2, C3, A1, A2, A3.
      now rewrite !append_assoc.
    + destruct (onmessage_unheard ctx source m s Hc) as (U1 & U2 & U3).
      cbv zeta in U1, U2, U3.
      now rewrite I1, I2, I3, U1, U2, U3.
Qed.

Lemma input_fragments_app ms1 ms2 :
  input_fragments (ms1 ++ ms2)
  = (input_fragments ms1 ++ input_fragments ms2)%string.
Proof.
  induction ms1 as [|d ms1 IH]; [reflexivity|].
  cbn [app input_fragments fold_right]. fold (input_fragments (ms1 ++ ms2)).
  fold (input_fragments ms1). rewrite IH.
  destruct (heard d); [now rewrite append_assoc|reflexivity].
Qed.

Lemma output_fragments_app ms1 ms2 :
  output_fragments (ms1 ++ ms2)
  = (output_fragments ms1 ++ output_fragments ms2)%string.
Proof.
  induction ms1 as [|d ms1 IH]; [reflexivity|].
  cbn [app output_fragments fold_right]. fold (output_fragments (ms1 ++ ms2)).
  fold (output_fragments ms1). rewrite IH.
  destruct (heard d); [now rewrite append_assoc|reflexivity].
Qed.

(** X6. Transcript fragments spread over any number of messages are put
    together in arrival order, the fragments of a message on whose audio
    part the handler throws being lost with it.  In a run where no message
    that is heard (handled without exception) carries the turn-complete
    marker, followed by a message that is heard and carries it: the user
    message holds the input buffer followed by the input fragments of the
    messages heard, the tutor message likewise for the output, and nothing
    was added to the transcript before the marker. *)
Theorem fragments_are_committed_in_order (ms : list Delivery) (last : Delivery)
    (s : State) :
  Forall (fun d : Delivery => heard d = true -> turnComplete (snd d) = false) ms ->
  heard last = true ->
  turnComplete (snd last) = true ->
  transcription (fst (deliver ms s)) = transcription s
  /\ transcription (fst (deliver (ms ++ [last]) s))
     = transcription s
       ++ committed (currentInputRef s ++ input_fragments (ms ++ [last]))
                    (currentOutputRef s ++ output_fragments (ms ++ [last]))
  /\ currentInputRef (fst (deliver (ms ++ [last]) s)) = ""
  /\ currentOutputRef (fst (deliver (ms ++ [last]) s)) = "".
Proof.
  intros Hms Hc Ht.
  destruct (deliver_accumulates ms s Hms) as (I1 & I2 & I3).
  split; [exact I1|].
  rewrite deliver_app. cbn [fst].
  destruct last as [[ctx source] m]. cbn [fst snd] in Ht.
  cbn [deliver fst outcome_state].
  set (s1 := fst (deliver ms s)) in *.
  rewrite input_fragments_app, output_fragments_app.
  cbn [input_fragments output_fragments fold_right]. rewrite Hc.
  unfold heard in Hc. cbn [fst snd] in Hc |- *.
  destruct (onmessage_completes_transcript ctx source m s1 Hc) as (C1 & C2 & C3).
  destruct (onmessage_transcript_turn_complete m s1 Ht) as (T1 & T2 & T3).
  cbv zeta in C1, C2, C3, T1, T2, T3.
  rewrite C1, C2, C3, T1, T2, T3, I1, I2, I3.
  now rewrite !append_empty_r, !append_assoc.
Qed.

Lemma fragments_are_committed_in_order_witness :
  transcription
    (fst (deliver
            ([(mkAudioContext running 0, 1%nat,
               mkLiveServerMessage None (Some (Some "How ")) None false false);
              (mkAudioContext running 0, 2%nat,
               mkLiveServerMessage (Some "AAAA") (Some (Some "are ")) None true false);
              (mkAudioContext running 0, 3%nat,
               mkLiveServerMessage (Some "AAA=") None (Some None) false false)]
             ++ [(mkAudioContext running 0, 4%nat,
                  mkLiveServerMessage None (Some (Some "you?")) None true false)])
            initial))
  = [mkMessage user "How you?" None].
Proof.
  refine (proj1 (proj2 (fragments_are_committed_in_order _ _ initial _ _ _)));
    [|reflexivity|reflexivity].
  repeat constructor; cbn [snd]; try reflexivity.
  vm_compute. discriminate.
Defined.

Lemma committed_nonempty input output :
  Forall (fun msg => truthy_string (text msg) = true /\ translation msg = None)
         (committed input output).
Proof.
  unfold committed.
  destruct (input =? "")%string eqn:Hi, (output =? "")%string eqn:Ho;
    repeat constructor; cbn; rewrite truthy_string_eqb, ?Hi, ?Ho; reflexivity.
Qed.

(** What one message can add to the transcript. *)
Lemma onmessage_appends ctx source m s :
  exists added,
    transcription (outcome_state (onmessage ctx source m s))
    = transcription s ++ added
    /\ Forall (fun msg => truthy_string (text msg) = true /\ translation msg = None)
              added.
Proof.
  pose proof (onmessage_audio_frame ctx source m s) as (Htr & _).
  unfold onmessage.
  destruct (onmessage_audio ctx source m s) as [s1 e1|s1 e1]; cbn [outcome_state] in *.
  2:{ exists []. rewrite app_nil_r. split; [exact Htr|constructor]. }
  pose proof (onmessage_interrupted_frame m (onmessage_transcript m s1)) as (Hi & _).
  destruct (onmessage_interrupted m (onmessage_transcript m s1)) as [s2 e2].
  cbn [fst outcome_state] in *. rewrite Hi, <- Htr.
  destruct (turnComplete m) eqn:Ht.
  - destruct (onmessage_transcript_turn_complete m s1 Ht) as (-> & _).
    eexists. split; [reflexivity|apply committed_nonempty].
  - destruct (onmessage_transcript_accumulates m s1 Ht) as (-> & _).
    exists []. rewrite app_nil_r. split; [reflexivity|constructor].
Qed.

(** X7. The message handler only ever adds to the end of the transcript:
    over any run of messages, rejected ones included, the messages already
    shown keep their place and content, and every message added has a
    non-empty text and no translation yet. *)
Theorem transcript_is_append_only (ms : list Delivery) (s : State) :
  exists added,
    transcription (fst (deliver ms s)) = transcription s ++ added
    /\ Forall (fun msg => truthy_string (text msg) = true /\ translation msg = None)
              added.
Proof.
  revert s. induction ms as [|[[ctx source] m] ms IH]; intros s.
  - exists []. cbn. rewrite app_nil_r. split; [reflexivity|constructor].
  - cbn [deliver].
    destruct (onmessage_appends ctx source m s) as (a1 & H1 & F1).
    destruct (IH (outcome_state (onmessage ctx source m s))) as (a2 & H2 & F2).
    destruct (deliver ms (outcome_state (onmessage ctx source m s))) as [s2 e2].
    cbn [fst] in *. exists (a1 ++ a2). split.
    + now rewrite H2, H1, app_assoc.
    + apply Forall_app. split; assumption.
Qed.

(** X8. A message whose audio fragment cannot be decoded is dropped whole:
    the handler stops at the exception, so nothing is scheduled, the
    transcript fragments and the turn-complete and interruption markers of
    that same message are not processed, and only the cursor has moved, to
    the later of itself and the output clock. *)
Theorem undecodable_fragment_drops_the_message ctx source
    (m : LiveServerMessage) (s : State) :
  audio_completes ctx m = false ->
  onmessage ctx source m s
  = Rejected
      (set_nextStartTimeRef (Qmax (nextStartTimeRef s) (currentTime ctx)) s) [].
Proof.
  unfold audio_completes, fragment_buffer, onmessage, onmessage_audio.
  destruct (inlineData m) as [a|]; [|discriminate].
  destruct (truthy_string a); cbn [negb orb andb]; [|discriminate].
  destruct (is_closed ctx); cbn [negb orb andb]; [discriminate|].
  destruct (decode a) as [bytes|]; [|reflexivity].
  destruct (decodeAudioData bytes 24000 1); [discriminate|reflexivity].
Qed.

Lemma undecodable_fragment_drops_the_message_witness :
  onmessage (mkAudioContext running 2) 1%nat
    (mkLiveServerMessage (Some "AAAA") (Some (Some "Hi")) None true true)
    three_pending
  = Rejected
      (set_nextStartTimeRef
         (Qmax (nextStartTimeRef three_pending) 2) three_pending) [].
Proof.
  apply (undecodable_fragment_drops_the_message (mkAudioContext running 2) 1%nat
           (mkLiveServerMessage (Some "AAAA") (Some (Some "Hi")) None true true)
           three_pending).
  reflexivity.
Defined.

Lemma scheduled_stops l : scheduled (map SourceStop l) = [].
Proof. induction l as [|x l IH]; [reflexivity|exact IH]. Qed.

(** X9. Once the output context is closed, audio fragments are ignored:
    the handler schedules nothing, and without an interruption marker it
    leaves the cursor and the source set as they are; the transcript part of
    the message is still processed. *)
Theorem closed_context_ignores_audio ctx source (m : LiveServerMessage) (s : State) :
  is_closed ctx = true ->
  exists s' e,
    onmessage ctx source m s = Completed s' e
    /\ scheduled e = []
    /\ transcription s' = transcription (onmessage_transcript m s)
    /\ (interrupted m = false ->
        e = []
        /\ nextStartTimeRef s' = nextStartTimeRef s
        /\ sourcesRef s' = sourcesRef s).
Proof.
  intros Hcl.
  assert (Ha : onmessage_audio ctx source m s = Completed s []).
  { unfold onmessage_audio. destruct (inlineData m) as [a|]; [|reflexivity].
    rewrite Hcl. now rewrite andb_false_r. }
  rewrite (onmessage_unfold _ _ _ _ _ _ Ha).
  eexists _, _. split; [reflexivity|].
  destruct (onmessage_interrupted_frame m (onmessage_transcript m s)) as (-> & _).
  destruct (onmessage_transcript_frame m s) as (Hc & Hs & _).
  unfold onmessage_interrupted. destruct (interrupted m); cbn [fst snd app].
  - split; [apply scheduled_stops|split; [reflexivity|discriminate]].
  - split; [reflexivity|]. split; [reflexivity|]. intros _. auto.
Qed.

Lemma closed_context_ignores_audio_witness :
  exists s' e,
    onmessage (mkAudioContext closed 9) 1%nat
      (mkLiveServerMessage (Some "AAA=") None None false false) three_pending
    = Completed s' e
    /\ scheduled e = []
    /\ nextStartTimeRef s' = nextStartTimeRef three_pending
    /\ sourcesRef s' = sourcesRef three_pending.
Proof.
  destruct (closed_context_ignores_audio (mkAudioContext closed 9) 1%nat
              (mkLiveServerMessage (Some "AAA=") None None false false)
              three_pending eq_refl) as (s' & e & H1 & H2 & _ & H3).
  exists s', e. destruct (H3 eq_refl) as (_ & H4 & H5). auto.
Defined.

End Session.

(** ** Playback after an interruption *)

Section Sources.

Import LiveChat.

(** X11. After an interruption that was processed (the handler raised no
    exception on the interrupting message), the next fragment that plays,
    in a message without an interruption marker of its own and with the
    output clock not negative, does not wait for the audio that was cut: it
    starts at the output clock of its arrival, it is the only pending
    source, and the cursor is at its end. *)
Theorem playback_restarts_at_the_clock ctx1 source1 (m1 : LiveServerMessage)
    ctx2 source2 (m2 : LiveServerMessage) (s : State) :
  interrupted m1 = true ->
  audio_completes ctx1 m1 = true ->
  plays (ctx2, source2, m2) = true ->
  interrupted m2 = false ->
  0 <= currentTime ctx2 ->
  let s1 := outcome_state (onmessage ctx1 source1 m1 s) in
  exists s2 b start,
    onmessage ctx2 source2 m2 s1 = Completed s2 [SourceStart source2 start b]
    /\ start == currentTime ctx2
    /\ sourcesRef s2 = [source2]
    /\ nextStartTimeRef s2 == currentTime ctx2 + duration b.
Proof.
  intros Hi1 Hc1 Hp2 Hi2 Hnow s1.
  assert (Hs1 : sourcesRef s1 = [] /\ nextStartTimeRef s1 = 0).
  { subst s1.
    destruct (onmessage_audio_completes ctx1 source1 m1 s Hc1) as (sa & ea & Ha & _).
    rewrite (onmessage_unfold _ _ _ _ _ _ Ha). cbn [outcome_state].
    unfold onmessage_interrupted. rewrite Hi1. cbn. auto. }
  destruct Hs1 as [Hsrc Hcur].
  destruct (onmessage_audio_plays ctx2 source2 m2 s1 Hp2)
    as (b & Hb & sa & Ha & Hc & Hs).
  rewrite (onmessage_unfold _ _ _ _ _ _ Ha).
  unfold onmessage_interrupted. rewrite Hi2. cbn [fst snd].
  exists (onmessage_transcript m2 sa), b,
         (Qmax (nextStartTimeRef s1) (currentTime ctx2)).
  rewrite app_nil_r. split; [reflexivity|].
  destruct (onmessage_transcript_frame m2 sa) as (-> & -> & _).
  rewrite Hs, Hc, Hsrc, Hcur.
  assert (Hmax : Qmax 0 (currentTime ctx2) == currentTime ctx2)
    by (apply Q.max_r; exact Hnow).
  split; [exact Hmax|]. split; [reflexivity|]. now rewrite Hmax.
Qed.

Lemma playback_restarts_at_the_clock_witness :
  exists s2 b start,
    onmessage (mkAudioContext running 4) 10%nat
      (mkLiveServerMessage (Some "AAA=") None None false false)
      (outcome_state
         (onmessage (mkAudioContext running 3) 7%nat
            (mkLiveServerMessage None None None false true) three_pending))
    = Completed s2 [SourceStart 10%nat start b]
    /\ start == 4
    /\ sourcesRef s2 = [10%nat]
    /\ nextStartTimeRef s2 == 4 + duration b.
Proof.
  apply (playback_restarts_at_the_clock (mkAudioContext running 3) 7%nat
           (mkLiveServerMessage None None None false true)
           (mkAudioContext running 4) 10%nat
           (mkLiveServerMessage (Some "AAA=") None None false false)
           three_pending); try reflexivity.
  unfold Qle; cbn; lia.
Defined.

End Sources.

(** ** Stopping and starting a session *)

Section StopAndStart.

Import Gemini LiveChat.

Lemma stopSession_idempotent_without_snapshot_witness :
  stopSession Ingles "m2c8v1b5n" 1700000000001
    (fst (stopSession Ingles "k3x9q0a7z" 1700000000000 greeted))
  = (fst (stopSession Ingles "k3x9q0a7z" 1700000000000 greeted), []).
Proof.
  apply (stopSession_idempotent_without_snapshot
           Ingles "k3x9q0a7z" 1700000000000 Ingles "m2c8v1b5n" 1700000000001
           greeted).
  vm_compute. apply le_n.
Defined.

Lemma stopSession_closure_effects seen lang newId now s :
  snd (stopSession_closure seen lang newId now s) = teardown_effects s.
Proof.
  destruct s as [? ? tr ? ? ? ? ? ? sp ci co ? src ? af].
  unfold stopSession_closure, teardown_effects.
  stop_cases seen sp ci co af; reflexivity.
Qed.

Lemma stopSession_closure_history_rule seen lang newId now s :
  pastSessions (fst (stopSession_closure seen lang newId now s))
  = (if (1 <? List.length seen)%nat
     then [mkChatSessionLog newId now seen lang]
     else [])
    ++ pastSessions s.
Proof.
  destruct s as [? ? tr ? ? ? ? ? ? sp ci co ? src ? af].
  unfold stopSession_closure. cbn [pastSessions].
  stop_cases seen sp ci co af; reflexivity.
Qed.

Lemma stopSession_effects lang newId now s :
  snd (stopSession lang newId now s) = teardown_effects s.
Proof.
  apply stopSession_closure_effects.
Qed.

Lemma stopSession_history_rule lang newId now s :
  pastSessions (fst (stopSession lang newId now s))
  = (if (1 <? List.length (transcription s))%nat
     then [mkChatSessionLog newId now (transcription s) lang]
     else [])
    ++ pastSessions s.
Proof.
  apply stopSession_closure_history_rule.
Qed.

(** X10. A session that the channel ends is not recorded in the history.
    [onclose], [onerror] and the [catch] of [startSession] call the
    [stopSession] of the render the session was started from, and the start
    button is shown there with an empty transcript only: whatever the
    conversation has become, they add no log and keep the transcript on
    screen, where the stop button records the same conversation.  They tear
    the session down with the same effects as the stop button. *)
Theorem channel_stop_records_nothing (started_from s : State)
    (lang lang' : Language) (newId newId' : string) (now now' : Z) :
  start_button_shown started_from = true ->
  let by_channel :=
    stopSession_closure (transcription started_from) lang newId now s in
  let by_button := stopSession lang' newId' now' s in
  pastSessions (fst by_channel) = pastSessions s
  /\ transcription (fst by_channel) = transcription s
  /\ torn_down (fst by_channel)
  /\ snd by_channel = snd by_button
  /\ ((1 < List.length (transcription s))%nat ->
      pastSessions (fst by_button)
      = mkChatSessionLog newId' now' (transcription s) lang'
          :: pastSessions (fst by_channel)).
Proof.
  intros Hstart by_channel by_button. subst by_channel by_button.
  rewrite (start_button_shown_empty _ Hstart).
  rewrite stopSession_closure_history_rule, stopSession_history_rule.
  rewrite stopSession_closure_effects, stopSession_effects.
  split; [reflexivity|].
  split; [apply stopSession_closure_tears_down|].
  split; [apply stopSession_closure_tears_down|].
  split; [reflexivity|].
  intros Hlen. apply Nat.ltb_lt in Hlen. now rewrite Hlen.
Qed.

Lemma channel_stop_records_nothing_witness :
  pastSessions
    (fst (stopSession_closure (transcription initial) Ingles "k3x9q0a7z"
            1700000000000 conversation))
  = []
  /\ List.length
       (pastSessions (fst (stopSession Ingles "m2c8v1b5n" 1700000000001 conversation)))
     = 1%nat.
Proof.
  destruct (channel_stop_records_nothing initial conversation Ingles Ingles
              "k3x9q0a7z" "m2c8v1b5n" 1700000000000 1700000000001 eq_refl)
    as (H1 & _ & _ & _ & H2).
  split; [exact H1|].
  rewrite H2; [reflexivity|]. vm_compute. apply le_n.
Defined.

(** X14. [stopSession] records a session exactly when the transcript holds
    more than one message: the log, with the whole transcript and the
    language, goes in front of the history, and the transcript stays on
    screen.  A session stopped right after the channel opened, with the
    greeting only, is not recorded. *)
Theorem stopSession_history (lang lang' : Language) (newId : string) (now : Z)
    (s : State) :
  pastSessions (fst (stopSession lang newId now s))
  = (if (1 <? List.length (transcription s))%nat
     then [mkChatSessionLog newId now (transcription s) lang]
     else [])
    ++ pastSessions s
  /\ transcription (fst (stopSession lang newId now s)) = transcription s
  /\ pastSessions (fst (stopSession lang newId now (fst (onopen lang' s))))
     = pastSessions s.
Proof.
  split; [apply stopSession_history_rule|].
  split; [apply stopSession_tears_down|].
  rewrite stopSession_history_rule. reflexivity.
Qed.

(** X15. [stopSession] leaves the session torn down from any state; it
    stops every pending source once, in the order they were scheduled; and
    it closes an audio context exactly when the cell holds one that is not
    closed already. *)
Theorem stopSession_teardown (lang : Language) (newId : string) (now : Z)
    (s : State) :
  let e := snd (stopSession lang newId now s) in
  torn_down (fst (stopSession lang newId now s))
  /\ filter is_stop e = map SourceStop (sourcesRef s)
  /\ (In (ContextClose Input) e
      <-> exists ctx, audioContextInRef s = Some ctx /\ is_closed ctx = false)
  /\ (In (ContextClose Output) e
      <-> exists ctx, audioContextOutRef s = Some ctx /\ is_closed ctx = false).
Proof.
  cbv zeta. rewrite stopSession_effects.
  split; [apply stopSession_tears_down|].
  unfold teardown_effects, closing.
  assert (Hstops : forall l, filter is_stop (map SourceStop l) = map SourceStop l).
  { induction l as [|x l IH]; [reflexivity|]. cbn. now rewrite IH. }
  assert (Hnot : forall l x, ~ In (ContextClose x) (map SourceStop l)).
  { intros l x H. apply in_map_iff in H. destruct H as (y & Hy & _). discriminate. }
  split; [|split].
  - rewrite !filter_app, Hstops.
    destruct (sessionPromiseRef s), (audioContextInRef s) as [ci|],
      (audioContextOutRef s) as [co|], (animationFrameRef s) as [h|];
      try destruct (is_closed ci); try destruct (is_closed co);
      try destruct (h =? 0)%Z; cbn; now rewrite ?app_nil_r.
  - rewrite !in_app_iff.
    destruct (sessionPromiseRef s), (audioContextInRef s) as [ci|],
      (audioContextOutRef s) as [co|], (animationFrameRef s) as [h|];
      try destruct (is_closed ci) eqn:Hci; try destruct (is_closed co) eqn:Hco;
      try destruct (h =? 0)%Z; cbn;
      (split;
       [intros H;
        repeat match goal with
               | H : _ \/ _ |- _ => destruct H
               | H : False |- _ => destruct H
               | H : In _ (map SourceStop _) |- _ => destruct (Hnot _ _ H)
               end; try discriminate; eauto
       |intros (ctx & Hctx & Hcl); try discriminate;
        try (inversion Hctx; subst; congruence); auto]).
  - rewrite !in_app_iff.
    destruct (sessionPromiseRef s), (audioContextInRef s) as [ci|],
      (audioContextOutRef s) as [co|], (animationFrameRef s) as [h|];
      try destruct (is_closed ci) eqn:Hci; try destruct (is_closed co) eqn:Hco;
      try destruct (h =? 0)%Z; cbn;
      (split;
       [intros H;
        repeat match goal with
               | H : _ \/ _ |- _ => destruct H
               | H : False |- _ => destruct H
               | H : In _ (map SourceStop _) |- _ => destruct (Hnot _ _ H)
               end; try discriminate; eauto
       |intros (ctx & Hctx & Hcl); try discriminate;
        try (inversion Hctx; subst; congruence); auto 10]).
Qed.

(** X16. A session is started once: with a key, [startSession] on an idle
    screen empties the transcript, marks the screen as connecting and asks
    for the microphone once; until the attempt ends, every further
    [startSession] changes nothing and asks for nothing. *)
Theorem startSession_once (env env' : KeyEnv) (onAction onAction' : bool)
    (s : State) (key : string) :
  getGeminiKey env = Some key ->
  isActive s = false ->
  isConnecting s = false ->
  let first := startSession env onAction s in
  snd first = (if onAction then [OnAction] else []) ++ [GetUserMedia]
  /\ transcription (fst first) = []
  /\ isConnecting (fst first) = true
  /\ startSession env' onAction' (fst first) = (fst first, []).
Proof.
  intros Hk Ha Hc. cbv zeta.
  assert (H1 : startSession env onAction s
               = (set_transcription [] (set_isConnecting true s),
                  (if onAction then [OnAction] else []) ++ [GetUserMedia])).
  { unfold startSession. now rewrite Hk, Ha, Hc. }
  rewrite H1. cbn [fst snd]. repeat split.
  unfold startSession. cbn. now rewrite orb_true_r.
Qed.

Lemma startSession_once_witness :
  snd (startSession stored_key true initial) = [OnAction; GetUserMedia]
  /\ startSession no_key true (fst (startSession stored_key true initial))
     = (fst (startSession stored_key true initial), []).
Proof.
  destruct (startSession_once stored_key no_key true true initial
              "AIzaSyExample-0123456789" eq_refl eq_refl eq_refl)
    as (H1 & _ & _ & H2).
  split; [exact H1|exact H2].
Defined.

End StopAndStart.

Lemma startSession_without_key_witness :
  snd (LiveChat.startSession Gemini.no_key true LiveChat.initial)
  = [LiveChat.OnAction; LiveChat.Alert KEY_MISSING_MESSAGE]
  /\ LiveChat.isConnecting
       (fst (LiveChat.startSession Gemini.no_key true LiveChat.initial)) = false.
Proof.
  apply (startSession_without_key Gemini.no_key true LiveChat.initial);
    reflexivity.
Defined.

Lemma fetchCultureData_without_key_witness :
  Forall (fun x => x = CultureHub.OnAction)
    (snd (CultureHub.fetchCultureData Gemini.no_key true Ingles None CultureHub.idle))
  /\ CultureHub.isLoading
       (fst (CultureHub.fetchCultureData Gemini.no_key true Ingles None
               CultureHub.idle)) = false
  /\ CultureHub.error
       (fst (CultureHub.fetchCultureData Gemini.no_key true Ingles None
               CultureHub.idle)) = Some KEY_MISSING_MESSAGE.
Proof.
  apply (fetchCultureData_without_key Gemini.no_key true Ingles None CultureHub.idle).
  reflexivity.
Defined.

Lemma scanImage_without_key_witness :
  snd (VisualScan.scanImage Gemini.no_key false Ingles "data:image/jpeg;base64,AAAA"
         VisualScan.analysed)
  = [VisualScan.Alert KEY_MISSING_MESSAGE]
  /\ VisualScan.isScanning
       (fst (VisualScan.scanImage Gemini.no_key false Ingles
               "data:image/jpeg;base64,AAAA" VisualScan.analysed)) = false.
Proof.
  apply (scanImage_without_key Gemini.no_key false Ingles
           "data:image/jpeg;base64,AAAA" VisualScan.analysed).
  reflexivity.
Defined.

(** ** Translating a message *)

Section TranslationAnswer.

Import Gemini LiveChat.

Lemma map_index_length {A} (f : A -> nat -> A) (l : list A) :
  forall i, List.length (map_index f i l) = List.length l.
Proof.
  induction l as [|m l IH]; intros i; cbn; [reflexivity|]. now rewrite IH.
Qed.

Lemma map_index_nth_error {A} (f : A -> nat -> A) (l : list A) :
  forall i j,
    nth_error (map_index f i l) j
    = option_map (fun m => f m (i + j)%nat) (nth_error l j).
Proof.
  induction l as [|m l IH]; intros i j; destruct j as [|j]; cbn;
    try reflexivity.
  - now rewrite Nat.add_0_r.
  - rewrite IH. now replace (S i + j)%nat with (i + S j)%nat by lia.
Qed.

(** The answer with a text fills the slot [idx] and no other. *)
Lemma translateMessage_resume_fills idx t s :
  truthy_string t = true ->
  let s' := translateMessage_resume idx (Resolved (Some t)) s in
  List.length (transcription s') = List.length (transcription s)
  /\ (forall j,
        nth_error (transcription s') j
        = option_map
            (fun m => if (j =? idx)%nat then mkMessage (role m) (text m) (Some t)
                      else m)
            (nth_error (transcription s) j))
  /\ isTranslatingIdx s' = None.
Proof.
  intros Ht. unfold translateMessage_resume. rewrite Ht. cbn.
  split; [apply map_index_length|]. split; [|reflexivity].
  intros j. rewrite map_index_nth_error. reflexivity.
Qed.

(** X20. When the translation arrives, it is written into the message at
    the requested index and nowhere else: role and text of that message and
    every other message are unchanged, the marker is cleared, and that
    message is never sent for translation again. *)
Theorem translation_fills_one_message (idx : nat) (t : string) (s : State)
    (msg : Message) :
  nth_error (transcription s) idx = Some msg ->
  truthy_string t = true ->
  let s' := translateMessage_resume idx (Resolved (Some t)) s in
  List.length (transcription s') = List.length (transcription s)
  /\ nth_error (transcription s') idx
     = Some (mkMessage (role msg) (text msg) (Some t))
  /\ (forall j, j <> idx ->
        nth_error (transcription s') j = nth_error (transcription s) j)
  /\ isTranslatingIdx s' = None
  /\ (forall env, translateMessage env idx s' = (s', [])).
Proof.
  intros Hmsg Ht s'.
  destruct (translateMessage_resume_fills idx t s Ht) as (Hlen & Hnth & Hm).
  fold s' in Hlen, Hnth, Hm.
  assert (Hidx : nth_error (transcription s') idx
                 = Some (mkMessage (role msg) (text msg) (Some t))).
  { rewrite Hnth, Hmsg. cbn. now rewrite Nat.eqb_refl. }
  split; [exact Hlen|]. split; [exact Hidx|]. split; [|split; [exact Hm|]].
  - intros j Hj. rewrite Hnth.
    destruct (nth_error (transcription s) j); [|reflexivity].
    cbn. apply Nat.eqb_neq in Hj. now rewrite Hj.
  - intros env. unfold translateMessage. rewrite Hidx. cbn [role translation].
    unfold truthy_opt. rewrite Ht. now destruct (role msg).
Qed.

Lemma translation_fills_one_message_witness :
  nth_error
    (transcription (translateMessage_resume 0 (Resolved (Some "Hello!")) greeted)) 0
  = Some (mkMessage tutor (GREETINGS Ingles) (Some "Hello!")).
Proof.
  apply (translation_fills_one_message 0 "Hello!" greeted
           (mkMessage tutor (GREETINGS Ingles) None));
    reflexivity.
Defined.

(** X21. A translation that fails, or comes back without text, leaves the
    screen exactly as it was before the request: the same message can be
    sent again. *)
Theorem failed_translation_restores_the_screen (env : KeyEnv) (idx : nat)
    (r : Response) (s : State) :
  requests (snd (translateMessage env idx s)) = 1%nat ->
  without_text r = true ->
  translateMessage_resume idx r (fst (translateMessage env idx s)) = s.
Proof.
  unfold translateMessage.
  destruct (nth_error (transcription s) idx) as [msg|]; [|discriminate].
  destruct (role msg); cbn [orb]; [discriminate|].
  destruct (truthy_opt (translation msg)); cbn [orb]; [discriminate|].
  destruct (isTranslatingIdx s) eqn:Hm; [discriminate|].
  destruct (getGeminiKey env); [|discriminate].
  intros _ Hr. cbn [fst]. unfold translateMessage_resume.
  destruct r as [[t|]|]; cbn in Hr.
  - apply negb_true_iff in Hr. rewrite Hr. destruct s; cbn in *. now subst.
  - destruct s; cbn in *. now subst.
  - destruct s; cbn in *. now subst.
Qed.

Lemma failed_translation_restores_the_screen_witness :
  translateMessage_resume 0 Failed (fst (translateMessage stored_key 0 greeted))
  = greeted.
Proof.
  apply (failed_translation_restores_the_screen stored_key 0 Failed greeted);
    reflexivity.
Defined.

Lemma run_app evs1 :
  forall w evs2,
    run w (evs1 ++ evs2)
    = match run w evs1 with
      | Some w1 => run w1 evs2
      | None => None
      end.
Proof.
  induction evs1 as [|ev evs1 IH]; intros w evs2; cbn; [reflexivity|].
  destruct (handle w ev); [apply IH|reflexivity].
Qed.

Lemma quiet_handle w ev :
  quiet ev = true ->
  exists w' added,
    handle w ev = Some w'
    /\ in_flight w' = in_flight w
    /\ transcription (component w') = transcription (component w) ++ added.
Proof.
  destruct ev as [lang|ctx source m|source|lang newId now|env idx|r
                  |seen lang newId now];
    try discriminate; intros _; unfold handle.
  - destruct (onmessage_appends ctx source m (component w)) as (added & Ha & _).
    eexists _, added. split; [reflexivity|]. cbn. auto.
  - eexists _, []. split; [reflexivity|]. cbn. now rewrite app_nil_r.
  - eexists _, []. split; [reflexivity|]. cbn [component in_flight].
    rewrite app_nil_r. split; [reflexivity|].
    apply stopSession_tears_down.
  - eexists _, []. split; [reflexivity|]. cbn [component in_flight].
    rewrite app_nil_r. split; [reflexivity|].
    apply stopSession_closure_tears_down.
Qed.

Lemma quiet_run evs :
  forall w,
    forallb quiet evs = true ->
    exists w' added,
      run w evs = Some w'
      /\ in_flight w' = in_flight w
      /\ transcription (component w') = transcription (component w) ++ added.
Proof.
  induction evs as [|ev evs IH]; intros w H.
  - exists w, []. cbn. now rewrite app_nil_r.
  - cbn in H. apply andb_prop in H as [Hev Hevs].
    destruct (quiet_handle w ev Hev) as (w1 & a1 & H1 & F1 & T1).
    destruct (IH w1 Hevs) as (w2 & a2 & H2 & F2 & T2).
    exists w2, (a1 ++ a2). cbn. rewrite H1. split; [exact H2|].
    split; [congruence|]. now rewrite T2, T1, app_assoc.
Qed.

(** X22. A translation keeps its target while the conversation goes on:
    whatever server messages, source ends and stops are handled between the
    request and its answer, the answer is written into the message the
    request was made for, and no request is left in flight. *)
Theorem translation_survives_the_conversation (w : World) (evs : list Event)
    (idx : nat) (msg : Message) (t : string) :
  in_flight w = [idx] ->
  nth_error (transcription (component w)) idx = Some msg ->
  forallb quiet evs = true ->
  truthy_string t = true ->
  exists w',
    run w (evs ++ [TranslationDone (Resolved (Some t))]) = Some w'
    /\ nth_error (transcription (component w')) idx
       = Some (mkMessage (role msg) (text msg) (Some t))
    /\ in_flight w' = []
    /\ isTranslatingIdx (component w') = None.
Proof.
  intros Hf Hmsg Hq Ht.
  destruct (quiet_run evs w Hq) as (w1 & added & Hrun & Hf1 & Htr).
  rewrite run_app, Hrun. cbn [run handle]. rewrite Hf1, Hf.
  eexists. split; [reflexivity|]. cbn [component in_flight].
  destruct (translateMessage_resume_fills idx t (component w1) Ht)
    as (_ & Hnth & Hm).
  split; [|split; [reflexivity|exact Hm]].
  rewrite Hnth, Htr, nth_error_app1, Hmsg.
  - cbn. now rewrite Nat.eqb_refl.
  - apply nth_error_Some. congruence.
Qed.

Lemma translation_survives_the_conversation_witness :
  exists w',
    run (mkWorld (fst (translateMessage stored_key 0 greeted)) [0%nat])
        ([ServerMessage (mkAudioContext running 0) 1%nat
            (mkLiveServerMessage None (Some (Some "Hi")) None true false);
          Stop Ingles "k3x9q0a7z" 1700000000000]
         ++ [TranslationDone (Resolved (Some "Hello!"))])
    = Some w'
    /\ nth_error (transcription (component w')) 0
       = Some (mkMessage tutor (GREETINGS Ingles) (Some "Hello!"))
    /\ in_flight w' = []
    /\ isTranslatingIdx (component w') = None.
Proof.
  apply (translation_survives_the_conversation
           (mkWorld (fst (translateMessage stored_key 0 greeted)) [0%nat])
           _ 0%nat (mkMessage tutor (GREETINGS Ingles) None) "Hello!");
    reflexivity.
Defined.

End TranslationAnswer.

(** ** The level meter *)

Section Meter.

Import LiveChat.

Lemma sum_of_bytes dataArray :
  forall acc,
    let total := fold_left (fun a b => (a + Z.of_N (Byte.to_N b))%Z) dataArray acc in
    (acc <= total <= acc + 255 * Z.of_nat (List.length dataArray))%Z.
Proof.
  induction dataArray as [|b l IH]; intros acc; cbn [fold_left List.length].
  - lia.
  - specialize (IH (acc + Z.of_N (Byte.to_N b))%Z). cbv zeta in IH.
    pose proof (Byte.to_N_bounded b). lia.
Qed.

(** X23. While the analyser is there, a tick of the level meter asks for
    the next frame, keeps its handle, and sets a level between 0 and
    255/128, so always below 2. *)
Theorem updateLevel_level (dataArray : list Byte.byte) (handle : Z) (s : State)
    (analyzer : AnalyserNode) :
  analyzerRef s = Some analyzer ->
  dataArray <> [] ->
  let s' := fst (updateLevel dataArray handle s) in
  snd (updateLevel dataArray handle s) = true
  /\ animationFrameRef s' = Some handle
  /\ 0 <= audioLevel s'
  /\ audioLevel s' <= 255 # 128.
Proof.
  intros Ha Hne. unfold updateLevel. rewrite Ha. cbn.
  split; [reflexivity|]. split; [reflexivity|].
  unfold average.
  pose proof (sum_of_bytes dataArray 0%Z) as Hsum. cbv zeta in Hsum.
  set (total := fold_left _ dataArray 0%Z) in *. clearbody total.
  destruct dataArray as [|b l]; [congruence|].
  cbn [List.length] in *. rewrite Nat2Z.inj_succ in *.
  set (n := Z.of_nat (List.length l)) in *.
  assert (Hn : (0 <= n)%Z) by apply Nat2Z.is_nonneg. clearbody n.
  destruct (Z.succ n) as [|p|p] eqn:Hp; try lia.
  unfold Qle, Qdiv, Qmult, Qinv, inject_Z. cbn. split; nia.
Qed.

Lemma updateLevel_level_witness :
  0 <= audioLevel (fst (updateLevel [Byte.xff; Byte.x80] 42 conversation))
  /\ audioLevel (fst (updateLevel [Byte.xff; Byte.x80] 42 conversation)) <= 255 # 128.
Proof.
  destruct (updateLevel_level [Byte.xff; Byte.x80] 42 conversation 3%nat eq_refl)
    as (_ & _ & H1 & H2); [discriminate|].
  split; [exact H1|exact H2].
Defined.

(** X24. Stopping the session stops the meter: a tick that comes after
    [stopSession] changes nothing and asks for no further frame, and the
    level shown is 0. *)
Theorem metering_stops_with_the_session (lang : Language) (newId : string)
    (now : Z) (dataArray : list Byte.byte) (handle : Z) (s : State) :
  let stopped := fst (stopSession lang newId now s) in
  updateLevel dataArray handle stopped = (stopped, false)
  /\ audioLevel stopped = 0.
Proof.
  cbv zeta.
  destruct (stopSession_tears_down lang newId now s)
    as [(_ & _ & _ & _ & _ & _ & _ & Han & Hl) _].
  unfold updateLevel. rewrite Han. split; [reflexivity|exact Hl].
Qed.

End Meter.

(** ** CultureHub: sources, answers, playback of expressions *)

Section Culture.

Import Gemini CultureHub.

(** X25. There is one source per grounding chunk with a web part, in the
    order of the chunks, carrying that chunk's uri; its title is the chunk's
    own title when the chunk has a non-empty one, and the fallback "Fonte
    externa" when the title is missing or empty.  So every source has a
    non-empty title. *)
Theorem extracted_sources_are_titled (chunks : list GroundingChunk) :
  Forall2 (fun web src =>
             uri src = web_uri web
             /\ title src = match web_title web with
                            | Some t => if (t =? "")%string then "Fonte externa" else t
                            | None => "Fonte externa"
                            end)
          (web_parts chunks) (extractSources chunks)
  /\ Forall (fun src => truthy_string (title src) = true) (extractSources chunks)
  /\ map uri (extractSources chunks)
     = flat_map (fun chunk => match chunk with
                              | Some web => [web_uri web]
                              | None => []
                              end) chunks
  /\ (List.length (extractSources chunks) <= List.length chunks)%nat.
Proof.
  induction chunks as [|[web|] chunks (IH0 & IH1 & IH2 & IH3)];
    cbn [extractSources web_parts flat_map app map List.length] in *.
  - repeat split; constructor.
  - fold (extractSources chunks). fold (web_parts chunks).
    split; [|split; [|split]].
    + constructor; [|exact IH0]. cbn [title uri]. split; [reflexivity|].
      unfold truthy_opt, or_empty.
      destruct (web_title web) as [t|]; [|reflexivity].
      now destruct t.
    + constructor; [|exact IH1]. cbn [title].
      unfold truthy_opt, or_empty.
      destruct (web_title web) as [t|]; [|reflexivity].
      destruct (truthy_string t) eqn:Ht; [exact Ht|reflexivity].
    + cbn [uri]. now rewrite IH2.
    + lia.
  - fold (extractSources chunks). fold (web_parts chunks).
    split; [exact IH0|]. split; [exact IH1|]. split; [exact IH2|lia].
Qed.

Lemma extracted_sources_are_titled_witness :
  let chunks :=
    [Some (mkWeb (Some "Carnaval") "https://example.org/a"); None;
     Some (mkWeb (Some "") "https://example.org/b");
     Some (mkWeb None "https://example.org/c")] in
  extractSources chunks
  = [mkGroundingSource "Carnaval" "https://example.org/a";
     mkGroundingSource "Fonte externa" "https://example.org/b";
     mkGroundingSource "Fonte externa" "https://example.org/c"]
  /\ Forall (fun src => truthy_string (title src) = true) (extractSources chunks).
Proof.
  cbv zeta. split; [reflexivity|].
  exact (proj1 (proj2 (extracted_sources_are_titled
                         [Some (mkWeb (Some "Carnaval") "https://example.org/a"); None;
                          Some (mkWeb (Some "") "https://example.org/b");
                          Some (mkWeb None "https://example.org/c")]))).
Defined.

(** X26. A culture fetch that went out always ends with the screen not
    loading.  When the request fails, or its text does not parse, the fixed
    error message is shown and the culture data on screen stay as they
    were; when it parses, the data are replaced and no error is shown.  In
    both cases of an answer the sources are those of the answer, even when
    its text did not parse. *)
Theorem fetchCultureData_answer (JSON_parse : string -> option (option string))
    (env : KeyEnv) (onAction : bool) (language : Language)
    (query : option string) (s : State) (key : string) (a : Answer) :
  getGeminiKey env = Some key ->
  let s1 := fst (fetchCultureData env onAction language query s) in
  let s2 := fetchCultureData_resume JSON_parse a s1 in
  isLoading s1 = true
  /\ isLoading s2 = false
  /\ playingAudioIdx s2 = playingAudioIdx s
  /\ match a with
     | Failed =>
         error s2 = Some FETCH_FAILED_MESSAGE
         /\ cultureData s2 = cultureData s
         /\ sources s2 = []
     | Resolved response =>
         sources s2 = match groundingChunks response with
                      | Some chunks => extractSources chunks
                      | None => []
                      end
         /\ match JSON_parse
                    (if truthy_opt (response_text response)
                     then or_empty (response_text response) else "{}") with
            | Some parsed => cultureData s2 = parsed /\ error s2 = None
            | None =>
                cultureData s2 = cultureData s
                /\ error s2 = Some FETCH_FAILED_MESSAGE
            end
     end.
Proof.
  intros Hk. cbv zeta. unfold fetchCultureData. rewrite Hk. cbn [fst].
  unfold fetchCultureData_resume.
  destruct a as [response|]; [|cbn; repeat split].
  assert (Ht : truthy_string (or_empty (response_text response))
               = truthy_opt (response_text response)).
  { unfold or_empty, truthy_opt. destruct (response_text response) as [t|];
      [|reflexivity]. destruct (truthy_string t) eqn:E; [exact E|reflexivity]. }
  rewrite Ht.
  destruct (groundingChunks response);
    destruct (JSON_parse _); cbn; repeat split.
Qed.

Lemma fetchCultureData_answer_witness :
  isLoading
    (fetchCultureData_resume (fun _ => None) Failed
       (fst (fetchCultureData stored_key false Ingles None idle))) = false
  /\ error
       (fetchCultureData_resume (fun _ => None) Failed
          (fst (fetchCultureData stored_key false Ingles None idle)))
     = Some FETCH_FAILED_MESSAGE.
Proof.
  destruct (fetchCultureData_answer (fun _ => None) stored_key false Ingles None
              idle "AIzaSyExample-0123456789" Failed eq_refl)
    as (_ & H1 & _ & H2 & _).
  split; [exact H1|exact H2].
Defined.

(** X27. One expression plays at a time: once [playExpression] has sent its
    request, another call changes nothing and sends nothing; and whatever
    the answer, either a decoded buffer starts playing and the marker stays
    until it ends, or the marker is released at once. *)
Theorem playExpression_one_at_a_time (sdk_accepts sdk_accepts' : option string -> bool)
    (env env' : KeyEnv) (language language' : Language) (phrase phrase' : string)
    (index index' : nat) (s : State) (a : SpeechAnswer) :
  playingAudioIdx s = None ->
  sdk_accepts (process_env_API_KEY env) = true ->
  let first := playExpression sdk_accepts env language phrase index s in
  let answered := playExpression_resume a (fst first) in
  playingAudioIdx (fst first) = Some index
  /\ List.length (snd first) = 1%nat
  /\ playExpression sdk_accepts' env' language' phrase' index' (fst first)
     = (fst first, [])
  /\ match snd answered with
     | Some _ => fst answered = fst first
     | None => playingAudioIdx (fst answered) = None
     end
  /\ playingAudioIdx (playExpression_ended (fst answered)) = None.
Proof.
  intros Hidle Hsdk. cbv zeta.
  assert (H1 : playExpression sdk_accepts env language phrase index s
               = (mkState (cultureData s) (isLoading s) (Some index) (error s)
                    (sources s),
                  [GenerateContent (process_env_API_KEY env)
                     "gemini-2.5-flash-preview-tts" (Say language phrase)])).
  { unfold playExpression. now rewrite Hidle, Hsdk. }
  rewrite H1. cbn [fst snd]. split; [reflexivity|]. split; [reflexivity|].
  split; [reflexivity|]. split; [|reflexivity].
  unfold playExpression_resume.
  destruct a as [[audio|]|]; try reflexivity.
  destruct (truthy_string audio); [|reflexivity].
  destruct (LiveChat.decode audio) as [bytes|]; [|reflexivity].
  destruct (LiveChat.decodeAudioData bytes 24000 1); reflexivity.
Qed.

Lemma playExpression_one_at_a_time_witness :
  playExpression (fun _ => true) no_key Ingles "Break a leg" 1
    (fst (playExpression (fun _ => true) no_key Ingles "Break a leg" 0 idle))
  = (fst (playExpression (fun _ => true) no_key Ingles "Break a leg" 0 idle), []).
Proof.
  destruct (playExpression_one_at_a_time (fun _ => true) (fun _ => true)
              no_key no_key Ingles Ingles "Break a leg" "Break a leg" 0 1 idle
              SpeechFailed eq_refl eq_refl) as (_ & _ & H & _).
  exact H.
Defined.

End Culture.

(** ** VisualScan: answers and progress *)

Section Scan.

Import Gemini VisualScan.

Lemma prefix_split (p h : string) :
  String.prefix p h = true <-> exists post, h = (p ++ post)%string.
Proof.
  revert h. induction p as [|c p IH]; intros h.
  - split; [intros _; exists h; reflexivity|intros _; destruct h; reflexivity].
  - destruct h as [|d h]; cbn.
    + split; [discriminate|intros [post H]; discriminate].
    + destruct (ascii_dec c d) as [->|Hcd].
      * rewrite IH. split; intros [post H]; exists post; congruence.
      * split; [discriminate|]. intros [post H]. congruence.
Qed.

(** [includes] is the substring test. *)
Lemma includes_spec (needle hay : string) :
  includes needle hay = true
  <-> exists pre post, hay = (pre ++ needle ++ post)%string.
Proof.
  induction hay as [|c hay IH]; cbn [includes].
  - destruct (String.prefix needle "") eqn:Hp.
    + split; [intros _|reflexivity].
      apply prefix_split in Hp. destruct Hp as [post H].
      exists "", post. exact H.
    + split; [discriminate|]. intros (pre & post & H).
      destruct pre; [|discriminate]. cbn in H.
      assert (String.prefix needle "" = true); [|congruence].
      apply prefix_split. eauto.
  - destruct (String.prefix needle (String c hay)) eqn:Hp.
    + split; [intros _|reflexivity].
      apply prefix_split in Hp. destruct Hp as [post H].
      exists "", post. exact H.
    + rewrite IH. split.
      * intros (pre & post & H). exists (String c pre), post. cbn. now rewrite H.
      * intros (pre & post & H). destruct pre as [|d pre].
        -- cbn in H. assert (String.prefix needle (String c hay) = true); [|congruence].
           apply prefix_split. eauto.
        -- cbn in H. inversion H; subst. eauto.
Qed.

(** X28. Starting a scan clears the analysis and the translation on screen,
    key or no key, and keeps the image; when the answer comes the screen
    stops scanning and shows the text of the answer, or, on a failure, the
    "unavailable" message exactly when the error message contains 503 and
    the generic failure message otherwise; the translation stays cleared. *)
Theorem scanImage_answer (env : KeyEnv) (onAction : bool) (language : Language)
    (base64Img : string) (s : State) (a : Answer) :
  let s1 := fst (scanImage env onAction language base64Img s) in
  let s2 := scanImage_resume a s1 in
  result s1 = None /\ translation s1 = None /\ image s1 = image s
  /\ isScanning s2 = false /\ translation s2 = None
  /\ match a with
     | Resolved response_text => result s2 = response_text
     | Failed None => result s2 = Some "Falha na análise."
     | Failed (Some message) =>
         ((exists pre post, message = (pre ++ "503" ++ post)%string)
          /\ result s2 = Some "Servidor temporariamente indisponível.")
         \/ (~ (exists pre post, message = (pre ++ "503" ++ post)%string)
             /\ result s2 = Some "Falha na análise.")
     end.
Proof.
  cbv zeta. unfold scanImage.
  destruct (getGeminiKey env); cbn [fst]; unfold scanImage_resume; cbn;
    (repeat split; try reflexivity;
     destruct a as [t|[message|]]; try reflexivity;
     destruct (includes "503" message) eqn:Hi;
     [left; split; [exact (proj1 (includes_spec "503" message) Hi)|reflexivity]
     |right; split; [|reflexivity];
      intros H; apply (proj2 (includes_spec "503" message)) in H; congruence]).
Qed.

(** X29. One translation of the analysis at a time: once [translateResult]
    has sent its request, another call changes nothing and sends nothing;
    whatever the answer, the flag is cleared, the analysis is kept, and a
    failure shows the fixed message. *)
Theorem translateResult_single_flight (env env' : KeyEnv) (s : State) (a : Answer) :
  snd (translateResult env s) <> [] ->
  let first := translateResult env s in
  let answered := translateResult_resume a (fst first) in
  List.length (snd first) = 1%nat
  /\ translateResult env' (fst first) = (fst first, [])
  /\ isTranslating answered = false
  /\ result answered = result s
  /\ match a with
     | Resolved response_text => translation answered = response_text
     | Failed _ => translation answered = Some "Erro ao traduzir análise."
     end.
Proof.
  unfold translateResult at 1.
  destruct (result s) as [analysis|] eqn:Hr; [|intros H; now destruct H].
  destruct (truthy_string analysis) eqn:Ht; cbn [negb orb];
    [|intros H; now destruct H].
  destruct (isTranslating s) eqn:Hi; [intros H; now destruct H|].
  destruct (getGeminiKey env) as [key|] eqn:Hk; [|intros H; now destruct H].
  intros _. cbv zeta.
  assert (H1 : translateResult env s
               = (mkState (image s) (result s) (isScanning s) (translation s) true
                    (targetTransLang s),
                  [GenerateContent key "gemini-3-flash-preview"
                     (TranslateAnalysis (targetTransLang s) analysis)])).
  { unfold translateResult. rewrite Hr, Ht, Hi, Hk. reflexivity. }
  rewrite H1. cbn [fst snd]. split; [reflexivity|].
  split.
  - unfold translateResult. cbn. rewrite Hr. now rewrite orb_true_r.
  - unfold translateResult_resume. cbn. rewrite Hr.
    repeat split. destruct a; reflexivity.
Qed.

Lemma translateResult_single_flight_witness :
  translateResult no_key (fst (translateResult stored_key analysed))
  = (fst (translateResult stored_key analysed), []).
Proof.
  destruct (translateResult_single_flight stored_key no_key analysed (Failed None))
    as (_ & H & _).
  - discriminate.
  - exact H.
Defined.

(** X30. The progress message of a scan is always one of the list: from
    any index the next one is a valid index, and from a valid index five
    steps come back to it. *)
Theorem scan_messages_cycle (prev : nat) :
  (nextScanMessage prev < List.length SCAN_MESSAGES)%nat
  /\ (exists message, nth_error SCAN_MESSAGES (nextScanMessage prev) = Some message)
  /\ ((prev < List.length SCAN_MESSAGES)%nat ->
      Nat.iter 5 nextScanMessage prev = prev).
Proof.
  assert (H : (nextScanMessage prev < List.length SCAN_MESSAGES)%nat).
  { unfold nextScanMessage. apply Nat.mod_upper_bound. discriminate. }
  split; [exact H|]. split.
  - destruct (nth_error SCAN_MESSAGES (nextScanMessage prev)) eqn:E; [eauto|].
    apply nth_error_None in E. lia.
  - cbn [List.length SCAN_MESSAGES]. intros Hp.
    do 5 (destruct prev as [|prev]; [reflexivity|]). lia.
Qed.

Lemma scan_messages_cycle_witness : Nat.iter 5 nextScanMessage 3%nat = 3%nat.
Proof.
  apply (proj2 (proj2 (scan_messages_cycle 3%nat))). cbn. lia.
Defined.

End Scan.
